(** * Consensus gossip synchronizer (package consensus, syncer)

    A shallow embedding of the peer task ([peer.doSync], [peer.sync]) and of
    the synchronizer callbacks ([syncer.OnReceive], [syncer.OnJoin],
    [syncer.OnLeave], [syncer.OnEngineStepChange], [syncer.Stop], ...).

    Conventions.
    - Struct fields are projections prefixed with the struct's name
      ([prs_Height], [peer_running], [syncer_peers]); methods and functions
      keep their Go names.
    - [int64], [int32] and [uint16] values are [Z]; the wrap-around of Go's
      arithmetic and conversions is written out ([add64], [sub32], [uint16]).
    - The synchronizer mutex serialises every function modelled here, so each
      one is a function from the state before the call to the state after it.
      Calls that leave the synchronizer (network handler, block manager,
      fast-sync manager, timers, goroutines, engine mutators) are returned as a
      list of [event]s, in program order.  Logger calls are not modelled.
    - [*peerRoundState] is a pointer: round states live in [syncer_heap] and a
      peer record holds a location, so that two records that were handed the
      same decoded message share it. *)

From Stdlib Require Import ZArith Lia Bool List.
From stdpp Require Import base tactics option list numbers.

Open Scope Z_scope.

(** ** Machine integers *)

Definition wrap64 (z : Z) : Z := (z + 2 ^ 63) mod 2 ^ 64 - 2 ^ 63.
Definition wrap32 (z : Z) : Z := (z + 2 ^ 31) mod 2 ^ 32 - 2 ^ 31.
Definition add64 (a b : Z) : Z := wrap64 (a + b).
Definition sub64 (a b : Z) : Z := wrap64 (a - b).
Definition mul64 (a b : Z) : Z := wrap64 (a * b).
Definition sub32 (a b : Z) : Z := wrap32 (a - b).
(** The conversion [uint16(idx)]. *)
Definition uint16 (z : Z) : Z := z mod 2 ^ 16.

Definition int64_range (z : Z) : Prop := - 2 ^ 63 <= z < 2 ^ 63.
Definition int32_range (z : Z) : Prop := - 2 ^ 31 <= z < 2 ^ 31.

(** ** Bit masks *)

Module BitArray.

(** Modelled from the spec: the bit-mask type ([bitArray]) is declared in a
    file of the package that is not part of this development.  The spec
    gives it as a fixed-length bit vector with [set], [get], [copy], [flip],
    [and] and [pick_random]; a mask is the list of its bits, index 0 first.
    Masks are values here, so [Copy] is the identity and the in-place
    operations return the new mask. *)
Abbreviation bitArray := (list bool).

(** Modelled from the spec: a new mask of size [n] has every bit clear. *)
Definition newBitArray (n : Z) : bitArray := replicate (Z.to_nat n) false.

(** Modelled from the spec: the size of a mask is observable. *)
Definition Len (ba : bitArray) : Z := Z.of_nat (length ba).

(** Modelled from the spec: [get(i)]; a position outside the mask reads as
    clear. *)
Definition Get (idx : Z) (ba : bitArray) : bool :=
  if idx <? 0 then false else default false (ba !! Z.to_nat idx).

(** Modelled from the spec: [set(i)]; out of range the mask is left as it
    is. *)
Definition Set_ (idx : Z) (ba : bitArray) : bitArray :=
  if idx <? 0 then ba else <[Z.to_nat idx := true]> ba.

(** Modelled from the spec: [copy()]. *)
Definition Copy (ba : bitArray) : bitArray := ba.

(** Modelled from the spec: [flip()] complements every bit of the mask. *)
Definition Flip (ba : bitArray) : bitArray := map negb ba.

(** Modelled from the spec: [and(other)], which the spec defines for masks
    of one size.  For two sizes the model keeps the positions both masks
    have. *)
Definition AssignAnd (ba ba2 : bitArray) : bitArray := zip_with andb ba ba2.

(** Number of set bits. *)
Definition count (ba : bitArray) : nat := length (filter (fun b => b = true) ba).

(** Position of the [k]-th set bit (counting from 0) of [ba], whose first
    bit has index [i]; -1 when there are fewer set bits. *)
Fixpoint nthSet (ba : bitArray) (k : nat) (i : Z) : Z :=
  match ba with
  | [] => -1
  | true :: ba' =>
      match k with
      | O => i
      | S k' => nthSet ba' k' (i + 1)
      end
  | false :: ba' => nthSet ba' k (i + 1)
  end.

(** Modelled from the spec: [pick_random()] returns the index of a set bit
    chosen uniformly, or -1 for a mask without set bits.  [rnd] is the draw of
    the random source: among [c] set bits the one numbered [rnd mod c] is
    taken. *)
Definition PickRandom (rnd : nat) (ba : bitArray) : Z :=
  match count ba with
  | O => -1
  | S _ as c => nthSet ba (rnd `mod` c)%nat 0
  end.

End BitArray.
Import BitArray.

(** ** Data model *)

Abbreviation bytes := (list Byte.byte).

(** [module.PeerID]: a peer identity, compared with [Equal]. *)
Abbreviation PeerID := (nat).

(** [module.ProtocolInfo] is a 16-bit tag. *)
Abbreviation ProtocolInfo := (Z).

(** [time.Time] and [time.Duration], both in nanoseconds. *)
Abbreviation Time := (Z).
Abbreviation Duration := (Z).
Definition Second : Duration := 1000000000.
Definition Millisecond : Duration := 1000000.

(** [*time.Timer]: timers are compared by identity only. *)
Abbreviation Timer := (nat).

(** Location of a [peerRoundState] in [syncer_heap]. *)
Abbreviation loc := (nat).

(** [type step int]. *)
Abbreviation step := (Z).

(** Modelled from the spec: the step constants are declared with the engine,
    outside this development.  The spec orders the steps propose, prevote,
    precommit, precommit-wait, commit; the three constants the synchronizer
    compares with are numbered in that order. *)
Definition stepPropose : step := 1.

(** Modelled from the spec: see [stepPropose]. *)
Definition stepPrecommitWait : step := 5.

(** Modelled from the spec: see [stepPropose]. *)
Definition stepCommit : step := 6.

Definition configSendBPS : Z := -1.
Definition configRoundStateMessageInterval : Duration := 300 * Millisecond.
Definition configFastSyncThreshold : Z := 4.

(** Types that belong to the collaborators (engine, block manager, fast-sync
    manager, Go runtime); the synchronizer only passes their values along. *)
Class Collaborators : Type := {
  voteMessage : Type;
  Block : Type;
  BlockResult : Type;
  Error : Type;
  (** [func() bool], the cancel handle of a fast-sync fetch *)
  Canceler : Type;
}.

Section Model.
Context `{Collaborators}.

(** [*voteList], with [Len] and [Get]. *)
Definition voteList : Type := list voteMessage.

(** The [Part] and [PartSet] interfaces, with the methods the synchronizer
    calls. *)
Record Part : Type := { Bytes : bytes }.

Record PartSet : Type := {
  Parts : Z;
  GetPart : Z -> Part;
  GetMask : bitArray;
}.

(** Modelled from the spec: the struct is declared with the messages, outside
    this development.  Fields as in the spec's data model; [BlockPartsMask] is
    the nullable one. *)
Record peerRoundState : Type := {
  prs_Height : Z;
  prs_Round : Z;
  prs_PrevotesMask : bitArray;
  prs_PrecommitsMask : bitArray;
  prs_BlockPartsMask : option bitArray;
  prs_Sync : bool;
}.

Definition set_BlockPartsMask (prs : peerRoundState) (m : option bitArray)
  : peerRoundState :=
  {| prs_Height := prs_Height prs;
     prs_Round := prs_Round prs;
     prs_PrevotesMask := prs_PrevotesMask prs;
     prs_PrecommitsMask := prs_PrecommitsMask prs;
     prs_BlockPartsMask := m;
     prs_Sync := prs_Sync prs |}.

(** Modelled from the spec: the block-part message, [{height:int64,
    index:uint16, payload:bytes}], declared with the messages. *)
Record blockPartMessage : Type := {
  bp_Height : Z;
  bp_Index : Z;
  bp_BlockPart : bytes;
}.

(** Modelled from the spec: the three wire messages; a round-state message
    is the sender's round state and a vote-list message a sequence of
    votes. *)
Inductive message : Type :=
| BlockPartMessage (m : blockPartMessage)
| RoundStateMessage (prs : peerRoundState)
| VoteListMessage (vl : voteList).

(** The message codec and the protocol tags, declared with the messages and
    taken as parameters. *)
Class Codec : Type := {
  protoBlockPart : ProtocolInfo;
  protoRoundState : ProtocolInfo;
  protoVoteList : ProtocolInfo;
  unmarshalMessage : Z -> bytes -> message + Error;
  verify : message -> option Error;
  MarshalToBytes : message -> bytes;
}.

(** [type Engine interface].  [E] is the state of the engine; the three
    receiving methods change it. *)
Class Engine (E : Type) : Type := {
  GetCommitBlockParts : E -> Z -> PartSet;
  GetCommitPrecommits : E -> Z -> voteList;
  GetPrecommits : E -> Z -> voteList;
  GetVotes : E -> Z -> bitArray -> bitArray -> voteList;
  GetRoundState : E -> peerRoundState;
  Height : E -> Z;
  Round : E -> Z;
  Step : E -> step;
  ReceiveBlockPartMessage : E -> blockPartMessage -> bool -> E * (Z * option Error);
  ReceiveVoteMessage : E -> voteMessage -> bool -> E * (Z * option Error);
  ReceiveBlock : E -> BlockResult -> E;
}.

(** [module.BlockManager] and [fastsync.Manager], with the methods used.
    [FetchBlocks] returns the cancel handle; the synchronizer drops the error
    that comes with it. *)
Record BlockManager : Type := {
  GetBlockByHeight : Z -> Block + Error;
}.

Record FastSyncManager : Type := {
  FetchBlocks : Z -> Z -> Block -> option Canceler;
}.

(** Calls that leave the synchronizer. *)
Inductive event : Type :=
| EvUnicast (pi : ProtocolInfo) (bs : bytes) (to : PeerID)
| EvBroadcastNeighbor (pi : ProtocolInfo) (bs : bytes)
| EvGetBlockByHeight (h : Z)
| EvFetchBlocks (from to : Z) (blk : Block)
| EvCancelFetch (c : Canceler)
| EvStartServer
| EvStopServer
| EvTimerStop (t : Timer)
| EvAfterFunc (d : Duration) (t : Timer)
| EvWakeUpAfter (d : Duration) (id : PeerID)
| EvGoSync (id : PeerID)
| EvSignalStopped (id : PeerID)
| EvAwaitStopped (id : PeerID)
| EvReceiveBlockPartMessage (m : blockPartMessage)
| EvReceiveVoteMessage (v : voteMessage)
| EvReceiveBlock (br : BlockResult).

(** [type peer struct].  [peer_wakeUpChan] tells whether the one-slot wake-up
    channel holds a token. *)
Record peer : Type := {
  peer_id : PeerID;
  peer_wakeUpChan : bool;
  peer_running : bool;
  peer_peerRoundState : option loc;
}.

Context {E : Type} `{Engine E} `{Codec}.

(** [type syncer struct]. *)
Record syncer : Type := {
  syncer_engine : E;
  syncer_bm : BlockManager;
  syncer_fsm : FastSyncManager;
  syncer_peers : list peer;
  syncer_timer : option Timer;
  syncer_lastSendTime : Time;
  syncer_running : bool;
  syncer_fetchCanceler : option Canceler;
  syncer_heap : list peerRoundState;
}.

(** Field updates. *)
Definition set_engine (s : syncer) (e : E) : syncer :=
  {| syncer_engine := e; syncer_bm := syncer_bm s; syncer_fsm := syncer_fsm s;
     syncer_peers := syncer_peers s; syncer_timer := syncer_timer s;
     syncer_lastSendTime := syncer_lastSendTime s;
     syncer_running := syncer_running s;
     syncer_fetchCanceler := syncer_fetchCanceler s;
     syncer_heap := syncer_heap s |}.

Definition set_peers (s : syncer) (ps : list peer) : syncer :=
  {| syncer_engine := syncer_engine s; syncer_bm := syncer_bm s;
     syncer_fsm := syncer_fsm s;
     syncer_peers := ps; syncer_timer := syncer_timer s;
     syncer_lastSendTime := syncer_lastSendTime s;
     syncer_running := syncer_running s;
     syncer_fetchCanceler := syncer_fetchCanceler s;
     syncer_heap := syncer_heap s |}.

Definition set_timer (s : syncer) (t : option Timer) : syncer :=
  {| syncer_engine := syncer_engine s; syncer_bm := syncer_bm s;
     syncer_fsm := syncer_fsm s;
     syncer_peers := syncer_peers s; syncer_timer := t;
     syncer_lastSendTime := syncer_lastSendTime s;
     syncer_running := syncer_running s;
     syncer_fetchCanceler := syncer_fetchCanceler s;
     syncer_heap := syncer_heap s |}.

Definition set_lastSendTime (s : syncer) (t : Time) : syncer :=
  {| syncer_engine := syncer_engine s; syncer_bm := syncer_bm s;
     syncer_fsm := syncer_fsm s;
     syncer_peers := syncer_peers s; syncer_timer := syncer_timer s;
     syncer_lastSendTime := t;
     syncer_running := syncer_running s;
     syncer_fetchCanceler := syncer_fetchCanceler s;
     syncer_heap := syncer_heap s |}.

Definition set_running (s : syncer) (b : bool) : syncer :=
  {| syncer_engine := syncer_engine s; syncer_bm := syncer_bm s;
     syncer_fsm := syncer_fsm s;
     syncer_peers := syncer_peers s; syncer_timer := syncer_timer s;
     syncer_lastSendTime := syncer_lastSendTime s;
     syncer_running := b;
     syncer_fetchCanceler := syncer_fetchCanceler s;
     syncer_heap := syncer_heap s |}.

Definition set_fetchCanceler (s : syncer) (c : option Canceler) : syncer :=
  {| syncer_engine := syncer_engine s; syncer_bm := syncer_bm s;
     syncer_fsm := syncer_fsm s;
     syncer_peers := syncer_peers s; syncer_timer := syncer_timer s;
     syncer_lastSendTime := syncer_lastSendTime s;
     syncer_running := syncer_running s;
     syncer_fetchCanceler := c;
     syncer_heap := syncer_heap s |}.

Definition set_heap (s : syncer) (h : list peerRoundState) : syncer :=
  {| syncer_engine := syncer_engine s; syncer_bm := syncer_bm s;
     syncer_fsm := syncer_fsm s;
     syncer_peers := syncer_peers s; syncer_timer := syncer_timer s;
     syncer_lastSendTime := syncer_lastSendTime s;
     syncer_running := syncer_running s;
     syncer_fetchCanceler := syncer_fetchCanceler s;
     syncer_heap := h |}.

Definition set_peerRoundState (p : peer) (prs : option loc) : peer :=
  {| peer_id := peer_id p; peer_wakeUpChan := peer_wakeUpChan p;
     peer_running := peer_running p; peer_peerRoundState := prs |}.

Definition set_peer_running (p : peer) (b : bool) : peer :=
  {| peer_id := peer_id p; peer_wakeUpChan := peer_wakeUpChan p;
     peer_running := b; peer_peerRoundState := peer_peerRoundState p |}.

Definition set_wakeUpChan (p : peer) (b : bool) : peer :=
  {| peer_id := peer_id p; peer_wakeUpChan := b;
     peer_running := peer_running p;
     peer_peerRoundState := peer_peerRoundState p |}.

(** ** The peer task *)

Definition newPeer (id : PeerID) : peer :=
  {| peer_id := id; peer_wakeUpChan := false; peer_running := true;
     peer_peerRoundState := None |}.

(** [select { case p.wakeUpChan <- struct{}{}: default: }]: the slot is
    filled, and a second token is dropped. *)
Definition wakeUp (p : peer) : peer := set_wakeUpChan p true.

Definition setRoundState (p : peer) (prs : loc) : peer :=
  wakeUp (set_peerRoundState p (Some prs)).

(** The round state the peer record points to ([p.peerRoundState != nil]). *)
Definition roundStateOf (s : syncer) (p : peer) : option peerRoundState :=
  l ← peer_peerRoundState p; syncer_heap s !! l.

(** The round state of the peer at position [i] of [s.peers]. *)
Definition peerRoundStateAt (s : syncer) (i : nat) : option peerRoundState :=
  p ← syncer_peers s !! i; roundStateOf s p.

(** [doSync] of the peer at position [i] of [s.peers]; [rnd] is the draw used
    by [PickRandom].  Returns the state after the call, the calls made to the
    block manager and the fast-sync manager, and the message to send. *)
Definition doSync (s : syncer) (i : nat) (rnd : nat)
  : syncer * list event * option (ProtocolInfo * message) :=
  let e := syncer_engine s in
  match syncer_peers s !! i with
  | None => (s, [], None)
  | Some p =>
  match peer_peerRoundState p with
  | None => (s, [], None)
  | Some l =>
  match syncer_heap s !! l with
  | None => (s, [], None)
  | Some P =>
    if negb (prs_Sync P) then (s, [], None)
    else if (prs_Height P <? Height e)
            || ((prs_Height P =? Height e) && (stepCommit <=? Step e)) then
      match prs_BlockPartsMask P with
      | None =>
          let vl := GetCommitPrecommits e (prs_Height P) in
          let msg := VoteListMessage vl in
          let mask := newBitArray (Parts (GetCommitBlockParts e (prs_Height P))) in
          (set_heap s (<[l := set_BlockPartsMask P (Some mask)]> (syncer_heap s)),
           [], Some (protoVoteList, msg))
      | Some bpm =>
          let partSet := GetCommitBlockParts e (prs_Height P) in
          let mask := Copy bpm in
          let mask := Flip mask in
          let mask := AssignAnd mask (GetMask partSet) in
          let idx := PickRandom rnd mask in
          if idx <? 0 then (s, [], None)
          else
            let part := GetPart partSet idx in
            let msg := BlockPartMessage
                         {| bp_Height := prs_Height P;
                            bp_Index := uint16 idx;
                            bp_BlockPart := Bytes part |} in
            (set_heap s (<[l := set_BlockPartsMask P (Some (Set_ idx bpm))]>
                           (syncer_heap s)),
             [], Some (protoBlockPart, msg))
      end
    else if Height e <? prs_Height P then
      if (add64 (Height e) configFastSyncThreshold <? prs_Height P)
         && bool_decide (syncer_fetchCanceler s = None) then
        match GetBlockByHeight (syncer_bm s) (sub64 (Height e) 1) with
        | inr _ => (s, [EvGetBlockByHeight (sub64 (Height e) 1)], None)
        | inl blk =>
            (set_fetchCanceler s
               (FetchBlocks (syncer_fsm s) (Height e) (-1) blk),
             [EvGetBlockByHeight (sub64 (Height e) 1);
              EvFetchBlocks (Height e) (-1) blk],
             None)
        end
      else (s, [], None)
    else if (prs_Round P <? Round e) && (stepPrecommitWait <=? Step e) then
      let vl := GetPrecommits e (Round e) in
      let msg := VoteListMessage vl in
      (set_peers s (<[i := set_peerRoundState p None]> (syncer_peers s)),
       [], Some (protoVoteList, msg))
    else if prs_Round P <? Round e then
      let vl := GetPrecommits e (sub32 (Round e) 1) in
      let msg := VoteListMessage vl in
      (set_peers s (<[i := set_peerRoundState p None]> (syncer_peers s)),
       [], Some (protoVoteList, msg))
    else if prs_Round P =? Round e then
      let pv := Copy (prs_PrevotesMask P) in
      let pv := Flip pv in
      let pc := Copy (prs_PrecommitsMask P) in
      let pc := Flip pc in
      let vl := GetVotes e (Round e) pv pc in
      if 0 <? Z.of_nat (length vl) then
        let msg := VoteListMessage vl in
        (set_peers s (<[i := set_peerRoundState p None]> (syncer_peers s)),
         [], Some (protoVoteList, msg))
      else (s, [], None)
    else (s, [], None)
  end end end.

(** How an iteration of the [for] loop of [peer.sync] ends: the task waits
    for the next token ([LoopContinue], also when no token is there yet) or
    leaves the loop ([LoopBreak]). *)
Inductive loopControl : Type := LoopContinue | LoopBreak.

(** [time.Time.Sub] saturates at the ends of [Duration]. *)
Definition timeSub (t u : Time) : Duration :=
  Z.max (- 2 ^ 63) (Z.min (2 ^ 63 - 1) (t - u)).

(** [delta := time.Second * time.Duration(len(msgBS)) / configSendBPS], for
    a cap [bps]. *)
Definition sendDelta (bps : Z) (len : Z) : Duration :=
  Z.quot (mul64 Second len) bps.

(** One iteration of the loop of [peer.sync] for the peer at position [i],
    with the cap [bps] in the place of the constant [configSendBPS].
    [nextSendTime] is the local variable of that name, [now] the value of
    [time.Now()], [rnd] the draw used by [doSync]. *)
Definition syncLoop (bps : Z) (s : syncer) (i : nat)
    (nextSendTime : option Time) (now : Time) (rnd : nat)
  : syncer * list event * option Time * loopControl :=
  match syncer_peers s !! i with
  | None => (s, [], nextSendTime, LoopBreak)
  | Some p =>
    if negb (peer_wakeUpChan p) then (s, [], nextSendTime, LoopContinue)
    else
      let p := set_wakeUpChan p false in
      let s := set_peers s (<[i := p]> (syncer_peers s)) in
      if negb (peer_running p) then
        (s, [EvSignalStopped (peer_id p)], nextSendTime, LoopBreak)
      else if match nextSendTime with
              | Some t => now <? t
              | None => false
              end then
        (s, [], nextSendTime, LoopContinue)
      else
        let '(s, evs, out) := doSync s i rnd in
        match out with
        | None => (s, evs, None, LoopContinue)
        | Some (proto, msg) =>
            let msgBS := MarshalToBytes msg in
            let evs := evs ++ [EvUnicast proto msgBS (peer_id p)] in
            let wake s :=
              match syncer_peers s !! i with
              | Some p => set_peers s (<[i := wakeUp p]> (syncer_peers s))
              | None => s
              end in
            if bps <? 0 then (wake s, evs, nextSendTime, LoopContinue)
            else
              let nextSendTime :=
                match nextSendTime with
                | None => now
                | Some t => t
                end in
              let delta := sendDelta bps (Z.of_nat (length msgBS)) in
              let next := nextSendTime + delta in
              let waitTime := timeSub next now in
              if 0 <? waitTime then
                (s, evs ++ [EvWakeUpAfter waitTime (peer_id p)],
                 Some next, LoopContinue)
              else (wake s, evs, Some next, LoopContinue)
        end
  end.

(** The loop of [peer.sync] as compiled: the cap is [configSendBPS]. *)
Definition sync : syncer -> nat -> option Time -> Time -> nat ->
                  syncer * list event * option Time * loopControl :=
  syncLoop configSendBPS.

(** [peer.stop]; the wait for the task's [stopped] signal is deferred to the
    release of the mutex. *)
Definition stop (p : peer) : peer * list event :=
  (wakeUp (set_peer_running p false), [EvAwaitStopped (peer_id p)]).

(** ** The synchronizer *)

(** [id = None] is the call with a nil peer: a broadcast to the neighbours. *)
Definition doSendRoundStateMessage (s : syncer) (id : option PeerID)
  : list event :=
  let e := syncer_engine s in
  let msg := RoundStateMessage (GetRoundState e) in
  let bs := MarshalToBytes msg in
  match id with
  | None =>
      if 0 <? Z.of_nat (length (syncer_peers s))
      then [EvBroadcastNeighbor protoRoundState bs]
      else []
  | Some id => [EvUnicast protoRoundState bs id]
  end.

(** [now] is [time.Now()] and [timer] the timer [time.AfterFunc] returns. *)
Definition sendRoundStateMessage (s : syncer) (now : Time) (timer : Timer)
  : syncer * list event :=
  let evs := doSendRoundStateMessage s None in
  let s := set_lastSendTime s now in
  let evs := evs ++ match syncer_timer s with
                    | Some t => [EvTimerStop t]
                    | None => []
                    end in
  let evs := evs ++ [EvAfterFunc configRoundStateMessageInterval timer] in
  (set_timer s (Some timer), evs).

(** The function armed by [sendRoundStateMessage], run when [timer] fires. *)
Definition roundStateTimerFunc (s : syncer) (timer : Timer)
    (now : Time) (timer' : Timer) : syncer * list event :=
  if bool_decide (syncer_timer s = Some timer)
  then sendRoundStateMessage s now timer'
  else (s, []).

(** [fsm] is the result of [fastsync.NewManager]. *)
Definition newSyncer (e : E) (bm : BlockManager) (fsm : FastSyncManager + Error)
  : option (syncer * list event) :=
  match fsm with
  | inr _ => None
  | inl fsm =>
      Some ({| syncer_engine := e; syncer_bm := bm; syncer_fsm := fsm;
               syncer_peers := []; syncer_timer := None;
               syncer_lastSendTime := 0; syncer_running := false;
               syncer_fetchCanceler := None; syncer_heap := [] |},
            [EvStartServer])
  end.

(** [reg] is the error of [RegisterReactor], [peerIDs] the result of
    [GetPeers]. *)
Definition Start (s : syncer) (reg : option Error) (peerIDs : list PeerID)
    (now : Time) (timer : Timer) : syncer * list event * option Error :=
  match reg with
  | Some err => (s, [], Some err)
  | None =>
      let s := set_peers s (map newPeer peerIDs) in
      let evs := map EvGoSync peerIDs in
      let '(s, evs') := sendRoundStateMessage s now timer in
      (set_running s true, evs ++ evs', None)
  end.

(** Whether [OnReceive] wakes [p] after a block part of height [h]. *)
Definition wantsBlockPart (s : syncer) (h : Z) (p : peer) : bool :=
  match roundStateOf s p with
  | Some P =>
      (prs_Height P =? h) && (prs_Height P =? Height (syncer_engine s))
      && bool_decide (prs_BlockPartsMask P <> None)
  | None => false
  end.

(** The loop over the votes of a vote list: the results of
    [ReceiveVoteMessage] are dropped. *)
Fixpoint receiveVotes (e : E) (vl : voteList) : E * list event :=
  match vl with
  | [] => (e, [])
  | v :: vl' =>
      let e' := fst (ReceiveVoteMessage e v true) in
      let '(e'', evs) := receiveVotes e' vl' in
      (e'', EvReceiveVoteMessage v :: evs)
  end.

Definition OnReceive (s : syncer) (sp : ProtocolInfo) (bs : bytes) (id : PeerID)
  : syncer * list event * (bool * option Error) :=
  if negb (syncer_running s) then (s, [], (false, None))
  else
    match unmarshalMessage sp bs with
    | inr err => (s, [], (false, Some err))
    | inl msg =>
      match verify msg with
      | Some err => (s, [], (false, Some err))
      | None =>
        match msg with
        | BlockPartMessage m =>
            let '(e, (idx, err)) :=
              ReceiveBlockPartMessage (syncer_engine s) m true in
            let s := set_engine s e in
            let evs := [EvReceiveBlockPartMessage m] in
            if (idx <? 0) && bool_decide (err <> None) then
              (s, evs, (false, err))
            else
              let s := set_peers s
                         (map (fun p => if wantsBlockPart s (bp_Height m) p
                                        then wakeUp p else p)
                              (syncer_peers s)) in
              (s, evs, match err with
                       | Some _ => (false, err)
                       | None => (true, None)
                       end)
        | RoundStateMessage prs =>
            let l := length (syncer_heap s) in
            let s := set_heap s (syncer_heap s ++ [prs]) in
            let s := set_peers s
                       (map (fun p => if bool_decide (peer_id p = id)
                                      then setRoundState p l else p)
                            (syncer_peers s)) in
            (s, [], (true, None))
        | VoteListMessage vl =>
            let '(e, evs) := receiveVotes (syncer_engine s) vl in
            (set_engine s e, evs, (true, None))
        end
      end
    end.

Definition OnFailure (s : syncer) (err : Error) (pi : ProtocolInfo) (b : bytes)
  : syncer * list event :=
  if negb (syncer_running s) then (s, []) else (s, []).

Definition OnJoin (s : syncer) (id : PeerID) : syncer * list event :=
  if negb (syncer_running s) then (s, [])
  else if existsb (fun p => bool_decide (peer_id p = id)) (syncer_peers s)
  then (s, [])
  else
    let p := newPeer id in
    let s := set_peers s (syncer_peers s ++ [p]) in
    (s, EvGoSync id :: doSendRoundStateMessage s (Some id)).

(** Position of the first peer record with identity [id]. *)
Fixpoint findPeer (id : PeerID) (ps : list peer) : option nat :=
  match ps with
  | [] => None
  | p :: ps' =>
      if bool_decide (peer_id p = id) then Some O
      else S <$> findPeer id ps'
  end.

(** The record that leaves is dropped from [s.peers]; its task ends once it
    has been stopped, which the [EvAwaitStopped] of [stop] stands for. *)
Definition OnLeave (s : syncer) (id : PeerID) : syncer * list event :=
  if negb (syncer_running s) then (s, [])
  else
    match findPeer id (syncer_peers s) with
    | None => (s, [])
    | Some i =>
        let last := (length (syncer_peers s) - 1)%nat in
        match syncer_peers s !! i, syncer_peers s !! last with
        | Some p, Some q =>
            let ps := <[i := q]> (syncer_peers s) in
            let ps := take last ps in
            (set_peers s ps, snd (stop p))
        | _, _ => (s, [])
        end
    end.

Definition OnEngineStepChange (s : syncer) (now : Time) (timer : Timer)
  : syncer * list event :=
  if negb (syncer_running s) then (s, [])
  else
    let e := syncer_engine s in
    let s :=
      if (Step e =? stepPrecommitWait) || (Step e =? stepCommit) then
        set_peers s
          (map (fun p => if bool_decide (peer_peerRoundState p <> None)
                         then wakeUp p else p)
               (syncer_peers s))
      else s in
    if (Step e =? stepPropose) || (Step e =? stepCommit) then
      sendRoundStateMessage s now timer
    else (s, []).

Definition Stop (s : syncer) : syncer * list event :=
  let evs := flat_map (fun p => snd (stop p)) (syncer_peers s) in
  let s := set_peers s (map (fun p => fst (stop p)) (syncer_peers s)) in
  let s := set_running s false in
  let '(s, evs) :=
    match syncer_timer s with
    | Some t => (set_timer s None, evs ++ [EvTimerStop t])
    | None => (s, evs)
    end in
  let evs := evs ++ [EvStopServer] in
  match syncer_fetchCanceler s with
  | Some c => (set_fetchCanceler s None, evs ++ [EvCancelFetch c])
  | None => (s, evs)
  end.

Definition OnBlock (s : syncer) (br : BlockResult) : syncer * list event :=
  if negb (syncer_running s) then (s, [])
  else (set_engine s (ReceiveBlock (syncer_engine s) br), [EvReceiveBlock br]).

Definition OnEnd (s : syncer) (err : option Error) : syncer * list event :=
  if negb (syncer_running s) then (s, [])
  else (set_fetchCanceler s None, []).

End Model.

Arguments syncer {_} E.

(** ** Runs of a peer task *)

Section Runs.
Context `{Collaborators} {E : Type} `{!Engine E} `{!Codec}.
Implicit Types (s : syncer E) (p : peer) (P : peerRoundState).

(** The ways a call of [doSync] can end. *)
Inductive doSyncCase s i (rnd : nat)
  : syncer E -> option (ProtocolInfo * message) -> Prop :=
| ds_nothing : doSyncCase s i rnd s None
| ds_fetch blk :
    doSyncCase s i rnd
      (set_fetchCanceler s
         (FetchBlocks (syncer_fsm s) (Height (syncer_engine s)) (-1) blk))
      None
| ds_commit_votes p l P :
    syncer_peers s !! i = Some p ->
    peer_peerRoundState p = Some l ->
    syncer_heap s !! l = Some P ->
    prs_BlockPartsMask P = None ->
    let e := syncer_engine s in
    let mask := newBitArray (Parts (GetCommitBlockParts e (prs_Height P))) in
    doSyncCase s i rnd
      (set_heap s (<[l := set_BlockPartsMask P (Some mask)]> (syncer_heap s)))
      (Some (protoVoteList,
             VoteListMessage (GetCommitPrecommits e (prs_Height P))))
| ds_block_part p l P bpm idx :
    syncer_peers s !! i = Some p ->
    peer_peerRoundState p = Some l ->
    syncer_heap s !! l = Some P ->
    prs_BlockPartsMask P = Some bpm ->
    let partSet := GetCommitBlockParts (syncer_engine s) (prs_Height P) in
    idx = PickRandom rnd (AssignAnd (Flip (Copy bpm)) (GetMask partSet)) ->
    0 <= idx ->
    doSyncCase s i rnd
      (set_heap s (<[l := set_BlockPartsMask P (Some (Set_ idx bpm))]>
                     (syncer_heap s)))
      (Some (protoBlockPart,
             BlockPartMessage {| bp_Height := prs_Height P;
                                 bp_Index := uint16 idx;
                                 bp_BlockPart := Bytes (GetPart partSet idx) |}))
| ds_votes p vl :
    syncer_peers s !! i = Some p ->
    doSyncCase s i rnd
      (set_peers s (<[i := set_peerRoundState p None]> (syncer_peers s)))
      (Some (protoVoteList, VoteListMessage vl)).

(** The message a call of [doSync] hands to the network, if any. *)
Definition sentMessage (out : option (ProtocolInfo * message)) : list message :=
  match out with
  | Some (_, msg) => [msg]
  | None => []
  end.

(** Height and index of the block parts among the messages [ms]. *)
Definition blockPartsOf (ms : list message) : list (Z * Z) :=
  omap (fun msg => match msg with
                   | BlockPartMessage m => Some (bp_Height m, bp_Index m)
                   | _ => None
                   end) ms.

(** A step of the rest of the system that does not give the peer at position
    [i] a new round state: the record keeps its pointer and the round state
    it points to is as before.  Engine progress, wake-ups, timers, joins and
    round states received from other peers are of this kind. *)
Definition keepsRoundState (i : nat) s s' : Prop :=
  peer_peerRoundState <$> syncer_peers s' !! i
  = peer_peerRoundState <$> syncer_peers s !! i
  /\ forall p l, syncer_peers s !! i = Some p ->
                 peer_peerRoundState p = Some l ->
                 syncer_heap s' !! l = syncer_heap s !! l.

(** [betweenUpdates i s ms s']: the synchronizer goes from [s] to [s'] without
    a call of [setRoundState] on the peer at position [i], and [ms] are the
    messages the task of that peer got from [doSync] on the way, in order.
    The tasks of the other peers run [doSync] as well. *)
Inductive betweenUpdates (i : nat) : syncer E -> list message -> syncer E -> Prop :=
| bu_done s : betweenUpdates i s [] s
| bu_doSync s rnd s' evs out ms s'' :
    doSync s i rnd = (s', evs, out) ->
    betweenUpdates i s' ms s'' ->
    betweenUpdates i s (sentMessage out ++ ms) s''
| bu_other s j rnd s' evs out ms s'' :
    j <> i ->
    doSync s j rnd = (s', evs, out) ->
    betweenUpdates i s' ms s'' ->
    betweenUpdates i s ms s''
| bu_env s s' ms s'' :
    keepsRoundState i s s' ->
    betweenUpdates i s' ms s'' ->
    betweenUpdates i s ms s''.

(** The task of the peer at position [i] runs [doSync] once for each draw of
    [rnds]; the result is the state reached and the messages it got. *)
Fixpoint doSyncs s (i : nat) (rnds : list nat) : syncer E * list message :=
  match rnds with
  | [] => (s, [])
  | rnd :: rnds' =>
      let '(s', _, out) := doSync s i rnd in
      let '(s'', ms) := doSyncs s' i rnds' in
      (s'', sentMessage out ++ ms)
  end.

(** The invariant behind "at most once": as long as the peer at position [i]
    points to a round state, the block parts [sent] to it so far are of that
    round state's height and their bits are set in its block-parts mask. *)
Definition sentRecorded s (i : nat) (sent : list (Z * Z)) : Prop :=
  forall p l P,
    syncer_peers s !! i = Some p ->
    peer_peerRoundState p = Some l ->
    syncer_heap s !! l = Some P ->
    forall h ix, (h, ix) ∈ sent ->
      h = prs_Height P
      /\ exists bpm, prs_BlockPartsMask P = Some bpm /\ Get ix bpm = true.

End Runs.

(** ** Well-formed synchronizer states and the steps between them *)

Section Invariants.
Context `{Collaborators} {E : Type} `{!Engine E} `{!Codec}.
Implicit Types (s : syncer E) (p : peer) (P : peerRoundState).

(** The identities of the peer records, in the order of [s.peers]. *)
Definition peerIDs s : list PeerID := map peer_id (syncer_peers s).

(** A peer record is unique per identity, and a round-state pointer refers to
    a round state that was received. *)
Definition wellFormed s : Prop :=
  NoDup (peerIDs s)
  /\ forall i p l, syncer_peers s !! i = Some p ->
                   peer_peerRoundState p = Some l ->
                   (l < length (syncer_heap s))%nat.

(** The round-state pointers of the records [ps] lie below [n]. *)
Definition pointersBelow (n : nat) (ps : list peer) : Prop :=
  Forall (fun p => forall l, peer_peerRoundState p = Some l -> (l < n)%nat) ps.

(** One step of the synchronizer: a call of one of the functions that run
    under the mutex, by a peer task, the reactor, the timer, fast-sync or the
    owner of the synchronizer, or progress of the engine on its own. *)
Inductive syncerStep : syncer E -> syncer E -> Prop :=
| step_doSync s i rnd : syncerStep s (doSync s i rnd).1.1
| step_syncLoop bps s i nextSendTime now rnd :
    syncerStep s (syncLoop bps s i nextSendTime now rnd).1.1.1
| step_OnReceive s sp bs id : syncerStep s (OnReceive s sp bs id).1.1
| step_OnFailure s err pi b : syncerStep s (OnFailure s err pi b).1
| step_OnJoin s id : syncerStep s (OnJoin s id).1
| step_OnLeave s id : syncerStep s (OnLeave s id).1
| step_OnEngineStepChange s now timer :
    syncerStep s (OnEngineStepChange s now timer).1
| step_roundStateTimerFunc s timer now timer' :
    syncerStep s (roundStateTimerFunc s timer now timer').1
| step_Stop s : syncerStep s (Stop s).1
| step_OnBlock s br : syncerStep s (OnBlock s br).1
| step_OnEnd s err : syncerStep s (OnEnd s err).1
| step_engine s e : syncerStep s (set_engine s e).

(** [reaches s s']: the synchronizer goes from [s] to [s'] in some number of
    steps. *)
Inductive reaches : syncer E -> syncer E -> Prop :=
| reaches_here s : reaches s s
| reaches_step s s1 s' : syncerStep s s1 -> reaches s1 s' -> reaches s s'.

(** The network calls among the events [evs]. *)
Definition unicasts (evs : list event) : list (ProtocolInfo * bytes * PeerID) :=
  omap (fun ev => match ev with
                  | EvUnicast pi bs to => Some (pi, bs, to)
                  | _ => None
                  end) evs.

Definition broadcasts (evs : list event) : list (ProtocolInfo * bytes) :=
  omap (fun ev => match ev with
                  | EvBroadcastNeighbor pi bs => Some (pi, bs)
                  | _ => None
                  end) evs.

(** The fetches started among the events [evs]. *)
Definition fetches (evs : list event) : list (Z * Z * Block) :=
  omap (fun ev => match ev with
                  | EvFetchBlocks from to blk => Some (from, to, blk)
                  | _ => None
                  end) evs.

(** The block part [doSync] builds for the part [idx] of height [h]. *)
Definition partMessage (e : E) (h idx : Z) : message :=
  BlockPartMessage
    {| bp_Height := h; bp_Index := idx;
       bp_BlockPart := Bytes (GetPart (GetCommitBlockParts e h) idx) |}.

End Invariants.

(** ** A table-driven engine and sample states

    Used to run the model on concrete inputs. *)

Module Fixture.

Import Byte.

(** Votes, blocks, errors and cancel handles are numbers. *)
Definition types : Collaborators :=
  {| voteMessage := Z; Block := Z; BlockResult := Z; Error := Z;
     Canceler := Z |}.

Section Defs.
#[local] Existing Instance types.

(** The engine answers from tables: every commit block has the parts
    [e_parts], the votes of the round are listed by validator, and
    [e_badVote] is a vote the engine refuses. *)
Record engine : Type := {
  e_height : Z;
  e_round : Z;
  e_step : step;
  e_parts : list bytes;
  e_prevotes : list (option Z);
  e_precommits : list (option Z);
  e_badVote : Z;
  e_received : nat;
}.

Definition received (e : engine) : engine :=
  {| e_height := e_height e; e_round := e_round e; e_step := e_step e;
     e_parts := e_parts e; e_prevotes := e_prevotes e;
     e_precommits := e_precommits e; e_badVote := e_badVote e;
     e_received := S (e_received e) |}.

(** The part index of a block-part message has 16 bits. *)
Definition maxParts : nat := Z.to_nat (2 ^ 16).

Definition partSetOf (parts : list bytes) : PartSet :=
  {| Parts := Z.of_nat (length parts);
     GetPart := fun idx => {| Bytes := default [] (parts !! Z.to_nat idx) |};
     GetMask := replicate (length parts) true |}.

(** The votes of [votes] at the positions set in [mask]. *)
Definition selectVotes (mask : bitArray) (votes : list (option Z)) : list Z :=
  omap id (zip_with (fun (b : bool) v => if b then v else None) mask votes).

(** The engine that serves at most [cap] parts of a block. *)
Definition engineWith (cap : nat) : Engine engine :=
  {| GetCommitBlockParts := fun e _ => partSetOf (take cap (e_parts e));
     GetCommitPrecommits := fun _ h => [1000 + h];
     GetPrecommits := fun _ r => [2000 + r];
     GetVotes := fun e r pv pc =>
       if r =? e_round e
       then selectVotes pv (e_prevotes e) ++ selectVotes pc (e_precommits e)
       else [];
     GetRoundState := fun e =>
       {| prs_Height := e_height e; prs_Round := e_round e;
          prs_PrevotesMask := map (fun v => bool_decide (v <> None)) (e_prevotes e);
          prs_PrecommitsMask := map (fun v => bool_decide (v <> None)) (e_precommits e);
          prs_BlockPartsMask := None; prs_Sync := true |};
     Height := e_height;
     Round := e_round;
     Step := e_step;
     ReceiveBlockPartMessage := fun e m _ =>
       (received e,
        if bp_Index m <? Z.of_nat (length (e_parts e))
        then (bp_Index m, None) else (-1, Some 1));
     ReceiveVoteMessage := fun e v _ =>
       (received e,
        if bool_decide (v = e_badVote e) then (-1, Some 2) else (0, None));
     ReceiveBlock := fun e _ => received e |}.

(** The engine used in the examples keeps to the 16-bit part index; the wide
    one serves one part more. *)
Definition engineI : Engine engine := engineWith maxParts.
Definition engineWide : Engine engine := engineWith (S maxParts).

#[local] Existing Instance engineI.

(** A codec with a few canned messages: the first byte selects one. *)
Definition cannedBlockPart (h idx : Z) : message :=
  BlockPartMessage {| bp_Height := h; bp_Index := idx; bp_BlockPart := [xaa; xbb] |}.

Definition codec : Codec :=
  {| protoBlockPart := 1;
     protoRoundState := 2;
     protoVoteList := 3;
     unmarshalMessage := fun _ bs =>
       match bs with
       | [x01] => inl (VoteListMessage [1; 2; 3])
       | [x02] => inl (cannedBlockPart 10 0)
       | [x03] => inl (cannedBlockPart 10 7)
       | [x04] => inl (cannedBlockPart 10 500)
       | _ => inr 7
       end;
     verify := fun msg =>
       match msg with
       | BlockPartMessage m => if 100 <? bp_Index m then Some 3 else None
       | _ => None
       end;
     MarshalToBytes := fun msg =>
       match msg with
       | BlockPartMessage m => bp_BlockPart m
       | RoundStateMessage _ => [x00]
       | VoteListMessage vl => replicate (length vl) x01
       end |}.

(** An engine at height [h], round [r] and step [st], whose commit blocks
    have three parts; four validators have prevoted and the first two have
    precommitted. *)
Definition engineAt (h r : Z) (st : step) : engine :=
  {| e_height := h; e_round := r; e_step := st;
     e_parts := [[x00]; [x01]; [x02]];
     e_prevotes := [Some 10; Some 11; Some 12; Some 13];
     e_precommits := [Some 20; Some 21; None; None];
     e_badVote := 2;
     e_received := O |}.

(** The block manager has the blocks of the heights from 0 on; the fast-sync
    manager hands out the cancel handle 1. *)
Definition blocks : BlockManager :=
  {| GetBlockByHeight := fun h => if 0 <=? h then inl h else inr 9 |}.

Definition fetcher : FastSyncManager :=
  {| FetchBlocks := fun _ _ _ => Some 1 |}.

(** A running synchronizer with the peers [ps], whose round states are in
    [heap]. *)
Definition syncerOf (e : engine) (ps : list peer) (heap : list peerRoundState)
  : syncer engine :=
  {| syncer_engine := e; syncer_bm := blocks; syncer_fsm := fetcher;
     syncer_peers := ps; syncer_timer := None; syncer_lastSendTime := 0;
     syncer_running := true; syncer_fetchCanceler := None;
     syncer_heap := heap |}.

(** A round state advertising height [h] and round [r] with no votes known
    from four validators. *)
Definition roundState (h r : Z) (sync : bool) (bpm : option bitArray)
  : peerRoundState :=
  {| prs_Height := h; prs_Round := r;
     prs_PrevotesMask := [false; false; false; false];
     prs_PrecommitsMask := [false; false; false; false];
     prs_BlockPartsMask := bpm; prs_Sync := sync |}.

(** The peer with identity [id] and the round state at location [l]. *)
Definition peerAt (id : PeerID) (l : option loc) : peer :=
  {| peer_id := id; peer_wakeUpChan := false; peer_running := true;
     peer_peerRoundState := l |}.

(** One peer, whose round state is [P]. *)
Definition onePeer (e : engine) (P : peerRoundState) : syncer engine :=
  syncerOf e [peerAt 7%nat (Some 0%nat)] [P].

(** The engine has committed height 10; the peer is at that height and has
    not started to collect the block. *)
Definition commitPeer : syncer engine :=
  onePeer (engineAt 10 0 stepCommit) (roundState 10 0 true None).

(** The engine is at height 100 and the peer advertises height 110. *)
Definition aheadPeer (sync : bool) : syncer engine :=
  onePeer (engineAt 100 0 stepPropose) (roundState 110 0 sync None).

(** The engine is at height 10, round 1 and step [st]; the peer is at the
    same height in round 0. *)
Definition earlierRoundPeer (st : step) (sync : bool) : syncer engine :=
  onePeer (engineAt 10 1 st) (roundState 10 0 sync None).

(** The engine is at height 5, round 2 and step [st]; the peer is at the same
    height and round and has the prevote of validator 0 only. *)
Definition sameRoundState (sync : bool) : peerRoundState :=
  {| prs_Height := 5; prs_Round := 2;
     prs_PrevotesMask := [true; false; false; false];
     prs_PrecommitsMask := [false; false; false; false];
     prs_BlockPartsMask := None; prs_Sync := sync |}.

Definition sameRoundPeer (st : step) (sync : bool) : syncer engine :=
  onePeer (engineAt 5 2 st) (sameRoundState sync).

(** Two peers, the first of which has not sent a round state yet. *)
Definition twoPeers : syncer engine :=
  syncerOf (engineAt 10 0 stepCommit)
    [peerAt 7%nat None; peerAt 8%nat (Some 0%nat)]
    [roundState 10 0 true None].

(** No peer at all, as the engine enters the propose step. *)
Definition noPeers : syncer engine :=
  syncerOf (engineAt 10 0 stepPropose) [] [].

(** [commitPeer] with a token in the peer's wake-up slot. *)
Definition wokenPeer : syncer engine :=
  syncerOf (engineAt 10 0 stepCommit)
    [wakeUp (peerAt 7%nat (Some 0%nat))] [roundState 10 0 true None].

(** A commit block of [2 ^ 16 + 1] parts, of which the peer lacks the first
    and the last. *)
Definition widePeer : syncer engine :=
  onePeer
    {| e_height := 10; e_round := 0; e_step := stepCommit;
       e_parts := replicate (S maxParts) [x00];
       e_prevotes := []; e_precommits := []; e_badVote := 0;
       e_received := O |}
    (roundState 10 0 true
       (Some (false :: replicate (maxParts - 1) true ++ [false]))).

(** [wokenPeer] after its first message: the round state has an empty
    block-parts mask and the slot holds a token again. *)
Definition wokenPeerSent : syncer engine :=
  syncerOf (engineAt 10 0 stepCommit)
    [wakeUp (peerAt 7%nat (Some 0%nat))]
    [roundState 10 0 true (Some [false; false; false])].

(** [wokenPeerSent] without the token, the peer having the middle part. *)
Definition partlyFilledPeer : syncer engine :=
  onePeer (engineAt 10 0 stepCommit)
    (roundState 10 0 true (Some [false; true; false])).

(** A codec that reads a round state as well: the byte 5 is the round state
    of a peer at height 10 that asks for sync. *)
Definition codecWithRoundState : Codec :=
  {| protoBlockPart := 1;
     protoRoundState := 2;
     protoVoteList := 3;
     unmarshalMessage := fun sp bs =>
       match bs with
       | [x05] => inl (RoundStateMessage (roundState 10 0 true None))
       | _ => @unmarshalMessage _ codec sp bs
       end;
     verify := @verify _ codec;
     MarshalToBytes := @MarshalToBytes _ codec |}.

(** The synchronizer [newSyncer] makes for an engine about to propose
    height 10. *)
Definition freshSyncer : syncer engine :=
  {| syncer_engine := engineAt 10 0 stepPropose; syncer_bm := blocks;
     syncer_fsm := fetcher; syncer_peers := []; syncer_timer := None;
     syncer_lastSendTime := 0; syncer_running := false;
     syncer_fetchCanceler := None; syncer_heap := [] |}.

End Defs.

End Fixture.

(** * Properties *)

(** ** Machine integers *)

Lemma wrap64_id z : int64_range z -> wrap64 z = z.
Proof.
  unfold int64_range, wrap64. intros Hz.
  rewrite Z.mod_small by lia. lia.
Qed.

Lemma wrap32_id z : int32_range z -> wrap32 z = z.
Proof.
  unfold int32_range, wrap32. intros Hz.
  rewrite Z.mod_small by lia. lia.
Qed.

Lemma uint16_id z : 0 <= z < 2 ^ 16 -> uint16 z = z.
Proof. intros Hz. unfold uint16. by rewrite Z.mod_small. Qed.

(** ** Bit masks *)

Section BitArrayFacts.
Implicit Types (ba : bitArray) (idx : Z).

Lemma Get_lookup idx ba :
  Get idx ba = true <-> 0 <= idx /\ ba !! Z.to_nat idx = Some true.
Proof.
  unfold Get. destruct (Z.ltb_spec idx 0) as [Hn|Hn].
  - split; [done | lia].
  - destruct (ba !! Z.to_nat idx) as [[]|]; simpl; split; intros Hx;
      try done; try (split; [lia | done]); by destruct Hx.
Qed.

Lemma Get_lt_Len idx ba : Get idx ba = true -> 0 <= idx < Len ba.
Proof.
  intros [Hn Hl]%Get_lookup. apply lookup_lt_Some in Hl.
  unfold Len. lia.
Qed.

Lemma Len_newBitArray n : 0 <= n -> Len (newBitArray n) = n.
Proof.
  intros Hn. unfold Len, newBitArray. rewrite length_replicate. lia.
Qed.

Lemma Get_newBitArray idx n : Get idx (newBitArray n) = false.
Proof.
  apply not_true_is_false. intros [Hn Hl]%Get_lookup.
  unfold newBitArray in Hl. apply lookup_replicate in Hl as [? _]. done.
Qed.

Lemma Len_Set idx i ba : Len (Set_ i ba) = Len ba.
Proof.
  unfold Set_, Len. destruct (i <? 0); [done|]. by rewrite length_insert.
Qed.

Lemma Get_Set_eq idx ba :
  0 <= idx < Len ba -> Get idx (Set_ idx ba) = true.
Proof.
  intros Hr. apply Get_lookup. split; [lia|].
  unfold Set_. destruct (Z.ltb_spec idx 0); [lia|].
  apply list_lookup_insert_eq. unfold Len in Hr. lia.
Qed.

Lemma Get_Set_mono idx j ba :
  Get j ba = true -> Get j (Set_ idx ba) = true.
Proof.
  intros [Hj Hl]%Get_lookup. apply Get_lookup. split; [done|].
  unfold Set_. destruct (idx <? 0); [done|].
  destruct (decide (Z.to_nat idx = Z.to_nat j)) as [->|Hne].
  - apply list_lookup_insert_eq. by apply lookup_lt_Some in Hl.
  - by rewrite list_lookup_insert_ne.
Qed.

Lemma Get_Set_ne idx j ba :
  0 <= idx -> 0 <= j -> idx <> j -> Get j (Set_ idx ba) = Get j ba.
Proof.
  intros Hi Hj Hne. unfold Get, Set_.
  destruct (Z.ltb_spec idx 0); [lia|]. destruct (Z.ltb_spec j 0); [lia|].
  rewrite list_lookup_insert_ne; [done | lia].
Qed.

Lemma Get_Flip idx ba :
  0 <= idx < Len ba -> Get idx (Flip ba) = negb (Get idx ba).
Proof.
  intros Hr. unfold Get, Flip. destruct (Z.ltb_spec idx 0); [lia|].
  rewrite list_lookup_fmap.
  destruct (ba !! Z.to_nat idx) as [b|] eqn:Hl; [done|].
  apply lookup_ge_None in Hl. unfold Len in Hr. lia.
Qed.

Lemma Len_Flip ba : Len (Flip ba) = Len ba.
Proof. unfold Len, Flip. by rewrite length_map. Qed.

Lemma Get_AssignAnd idx ba ba2 :
  Get idx (AssignAnd ba ba2) = Get idx ba && Get idx ba2.
Proof.
  unfold Get, AssignAnd. destruct (idx <? 0); [done|].
  rewrite lookup_zip_with.
  destruct (ba !! Z.to_nat idx) as [b|]; simpl; [|done].
  destruct (ba2 !! Z.to_nat idx) as [b2|]; simpl; [done|].
  by rewrite andb_false_r.
Qed.

Lemma nthSet_lookup ba k i idx :
  nthSet ba k i = idx -> idx <> -1 -> 0 <= i ->
  i <= idx /\ ba !! Z.to_nat (idx - i) = Some true.
Proof.
  revert k i. induction ba as [|b ba IH]; intros k i Hk Hne Hi; simpl in Hk.
  - congruence.
  - destruct b.
    + destruct k as [|k].
      * subst idx. split; [lia|]. by replace (i - i) with 0 by lia.
      * apply IH in Hk as [Hle Hl]; [|done|lia]. split; [lia|].
        replace (Z.to_nat (idx - i)) with (S (Z.to_nat (idx - (i + 1)))) by lia.
        done.
    + apply IH in Hk as [Hle Hl]; [|done|lia]. split; [lia|].
      replace (Z.to_nat (idx - i)) with (S (Z.to_nat (idx - (i + 1)))) by lia.
      done.
Qed.

Lemma count_cons b ba :
  count (b :: ba) = if b then S (count ba) else count ba.
Proof.
  unfold count. destruct b.
  - by rewrite filter_cons_True.
  - by rewrite filter_cons_False.
Qed.

Lemma nthSet_found ba k i :
  (k < count ba)%nat -> 0 <= i -> i <= nthSet ba k i.
Proof.
  revert k i. induction ba as [|b ba IH]; intros k i Hk Hi.
  - unfold count in Hk. simpl in Hk. lia.
  - rewrite count_cons in Hk. destruct b; simpl.
    + destruct k as [|k]; [lia|].
      specialize (IH k (i + 1)). lia.
    + specialize (IH k (i + 1)). lia.
Qed.

Lemma count_zero ba idx : count ba = O -> Get idx ba = false.
Proof.
  intros Hc. apply not_true_is_false. intros [_ Hl]%Get_lookup.
  apply list_elem_of_lookup_2 in Hl.
  assert (Hin : true ∈ filter (fun b => b = true) ba)
    by (by apply list_elem_of_filter).
  unfold count in Hc. apply length_zero_iff_nil in Hc.
  rewrite Hc in Hin. by apply elem_of_nil in Hin.
Qed.

(** [PickRandom] answers -1 or the index of a set bit. *)
Lemma PickRandom_range rnd ba : -1 <= PickRandom rnd ba.
Proof.
  unfold PickRandom. destruct (count ba) as [|c] eqn:Hc; [lia|].
  pose proof (nthSet_found ba (rnd `mod` S c) 0) as Hf.
  rewrite Hc in Hf.
  assert (Hm : (rnd `mod` S c < S c)%nat) by (apply Nat.mod_upper_bound; lia).
  specialize (Hf Hm). lia.
Qed.

Lemma PickRandom_set rnd ba idx :
  PickRandom rnd ba = idx -> 0 <= idx -> Get idx ba = true.
Proof.
  unfold PickRandom. intros Hp Hi.
  destruct (count ba) as [|c]; [lia|].
  apply nthSet_lookup in Hp as [_ Hl]; [|lia|lia].
  apply Get_lookup. split; [done|]. by replace (idx - 0) with idx in Hl by lia.
Qed.

Lemma PickRandom_none rnd ba :
  PickRandom rnd ba < 0 <-> forall idx, Get idx ba = false.
Proof.
  split.
  - intros Hp idx. unfold PickRandom in Hp.
    destruct (count ba) as [|c] eqn:Hc; [by apply count_zero|].
    pose proof (nthSet_found ba (rnd `mod` S c) 0) as Hf.
    rewrite Hc in Hf.
    assert (Hm : (rnd `mod` S c < S c)%nat) by (apply Nat.mod_upper_bound; lia).
    specialize (Hf Hm). lia.
  - intros Hall. destruct (Z.ltb_spec (PickRandom rnd ba) 0) as [|Hge]; [done|].
    pose proof (PickRandom_set rnd ba _ eq_refl Hge) as Hs.
    rewrite Hall in Hs. done.
Qed.

End BitArrayFacts.

(** ** [doSync] *)

Section DoSyncFacts.
Context `{Collaborators} {E : Type} `{!Engine E} `{!Codec}.
Implicit Types (s : syncer E) (p : peer) (P : peerRoundState).

Lemma peerRoundStateAt_Some s i P :
  peerRoundStateAt s i = Some P <->
  exists p l, syncer_peers s !! i = Some p
              /\ peer_peerRoundState p = Some l
              /\ syncer_heap s !! l = Some P.
Proof.
  unfold peerRoundStateAt, roundStateOf. split.
  - intros Hs. destruct (syncer_peers s !! i) as [p|]; [|done]. simpl in Hs.
    destruct (peer_peerRoundState p) as [l|] eqn:Hl; [|done]. simpl in Hs.
    by exists p, l.
  - intros (p & l & -> & Hl & Hh). simpl. rewrite Hl. done.
Qed.

Lemma doSync_cases s i rnd s' evs out :
  doSync s i rnd = (s', evs, out) -> doSyncCase s i rnd s' out.
Proof.
  unfold doSync. intros Hd.
  repeat case_match; simplify_eq; try (by constructor);
    try (by eapply ds_commit_votes); try (by eapply ds_votes).
  eapply ds_block_part; eauto. lia.
Qed.

Lemma peerRoundStateAt_set_heap s i heap :
  peerRoundStateAt (set_heap s heap) i
  = (p ← syncer_peers s !! i; l ← peer_peerRoundState p; heap !! l).
Proof. done. Qed.

(** A peer without round state gets no message, whatever the draw. *)
Lemma doSync_nil s i rnd :
  peerRoundStateAt s i = None -> doSync s i rnd = (s, [], None).
Proof.
  unfold peerRoundStateAt, roundStateOf, doSync. intros Hn.
  destruct (syncer_peers s !! i) as [p|]; [|done]. simpl in Hn.
  destruct (peer_peerRoundState p) as [l|]; [|done]. simpl in Hn.
  by rewrite Hn.
Qed.

Lemma peerRoundStateAt_cleared s i p :
  syncer_peers s !! i = Some p ->
  peerRoundStateAt
    (set_peers s (<[i := set_peerRoundState p None]> (syncer_peers s))) i
  = None.
Proof.
  intros Hp. unfold peerRoundStateAt. simpl.
  rewrite list_lookup_insert_eq by (by eapply lookup_lt_Some). done.
Qed.

End DoSyncFacts.

(** * The claims *)

Section Claims.
Context `{Collaborators} {E : Type} `{!Engine E} `{!Codec}.
Implicit Types (s : syncer E) (p : peer) (P : peerRoundState).


End Claims.

Section Claims.
Context `{Collaborators} {E : Type} `{!Engine E} `{!Codec}.
Implicit Types (s : syncer E) (p : peer) (P : peerRoundState).

(** C10.  Frame of [doSync].  A call for the peer at position [i] leaves the
    running flag, the broadcast timer, the time of the last send, the engine
    and the collaborators' handles as they were; the peer list keeps its
    length and every other record; the record of the peer itself keeps its
    identity, its running flag and its wake-up slot, and its round-state
    pointer is kept or cleared; and in the heap only the round state that
    this peer points to changes, and there only the block-parts mask.  The
    one remaining field the call may write is the fetch cancel handle. *)
Theorem doSync_frame s i rnd s' evs out :
  doSync s i rnd = (s', evs, out) ->
  syncer_running s' = syncer_running s
  /\ syncer_timer s' = syncer_timer s
  /\ syncer_lastSendTime s' = syncer_lastSendTime s
  /\ syncer_engine s' = syncer_engine s
  /\ syncer_bm s' = syncer_bm s
  /\ syncer_fsm s' = syncer_fsm s
  /\ length (syncer_peers s') = length (syncer_peers s)
  /\ (forall j, j <> i -> syncer_peers s' !! j = syncer_peers s !! j)
  /\ (forall p, syncer_peers s !! i = Some p ->
        syncer_peers s' !! i = Some p
        \/ syncer_peers s' !! i = Some (set_peerRoundState p None))
  /\ length (syncer_heap s') = length (syncer_heap s)
  /\ (forall l, peer_peerRoundState <$> syncer_peers s !! i <> Some (Some l) ->
        syncer_heap s' !! l = syncer_heap s !! l)
  /\ (forall l P, syncer_heap s !! l = Some P ->
        exists m, syncer_heap s' !! l = Some (set_BlockPartsMask P m)).
Proof.
  assert (Hid : forall l P, syncer_heap s !! l = Some P ->
            exists m, syncer_heap s !! l = Some (set_BlockPartsMask P m)).
  { intros l P HP. exists (prs_BlockPartsMask P). by destruct P. }
  assert (Hup : forall l0 P0 m0 l P,
            syncer_heap s !! l0 = Some P0 ->
            syncer_heap s !! l = Some P ->
            exists m, <[l0 := set_BlockPartsMask P0 m0]> (syncer_heap s) !! l
                      = Some (set_BlockPartsMask P m)).
  { intros l0 P0 m0 l P HP0 HP. destruct (decide (l0 = l)) as [->|Hne].
    - exists m0. rewrite list_lookup_insert_eq by (by eapply lookup_lt_Some).
      congruence.
    - rewrite list_lookup_insert_ne by done. by apply Hid. }
  intros Hd. apply doSync_cases in Hd.
  destruct Hd as [ | blk | p l P Hp Hl Hh Hm e mask
                 | p l P bpm idx Hp Hl Hh Hm partSet Hidx Hge | p vl Hp ];
    simpl; repeat split;
    first
      [ done
      | by rewrite length_insert
      | by intros l' P'; apply Hid
      | by intros l' P'; apply Hup
      | by intros p' Hp'; left
      | by intros j Hj; apply list_lookup_insert_ne
      | intros l' Hne; apply list_lookup_insert_ne; intros ->;
        apply Hne; by rewrite Hp; simpl; rewrite Hl
      | intros p' Hp'; right; assert (p' = p) as -> by congruence;
        apply list_lookup_insert_eq; by eapply lookup_lt_Some ].
Qed.

End Claims.

Section Claims.
Context `{Collaborators} {E : Type} `{!Engine E} `{!Codec}.
Implicit Types (s : syncer E) (p : peer) (P : peerRoundState).

Lemma blockPartsOf_app (ms ms' : list message) :
  blockPartsOf (ms ++ ms') = blockPartsOf ms ++ blockPartsOf ms'.
Proof. apply omap_app. Qed.

(** The index [doSync] picks is clear in the peer's mask, set in the part
    set's mask, and inside both. *)
Lemma picked_index rnd (bpm gm : bitArray) idx :
  idx = PickRandom rnd (AssignAnd (Flip (Copy bpm)) gm) ->
  0 <= idx ->
  Get idx bpm = false /\ Get idx gm = true /\ idx < Len bpm /\ idx < Len gm.
Proof.
  intros Hidx Hge. symmetry in Hidx.
  apply PickRandom_set in Hidx; [|done].
  rewrite Get_AssignAnd in Hidx. apply andb_true_iff in Hidx as [Hf Hg].
  unfold Copy in Hf. pose proof (Get_lt_Len _ _ Hf) as Hlen.
  rewrite Len_Flip in Hlen. rewrite Get_Flip in Hf by done.
  apply negb_true_iff in Hf. pose proof (Get_lt_Len _ _ Hg). repeat split; lia || done.
Qed.

(** A call of [doSync], for any peer, keeps what was recorded. *)
Lemma doSync_keeps_sentRecorded s i j rnd s' out sent :
  doSyncCase s j rnd s' out ->
  sentRecorded s i sent -> sentRecorded s' i sent.
Proof.
  intros Hc Hrec.
  destruct Hc as [ | blk | pj lj Pj Hp Hl Hh Hm e mask
                 | pj lj Pj bpm idx Hp Hl Hh Hm partSet Hidx Hge | pj vl Hp ];
    try done.
  - (* the mask is created *)
    intros p l P Hpi Hli HP h ix Hin. simpl in Hpi, HP.
    destruct (decide (lj = l)) as [->|Hne].
    + destruct (Hrec p l Pj Hpi Hli Hh h ix Hin) as (_ & bpm & Hbpm & _).
      congruence.
    + rewrite list_lookup_insert_ne in HP by done. by eapply Hrec.
  - (* a bit is set *)
    intros p l P Hpi Hli HP h ix Hin. simpl in Hpi, HP.
    destruct (decide (lj = l)) as [->|Hne].
    + rewrite list_lookup_insert_eq in HP by (by eapply lookup_lt_Some).
      destruct (Hrec p l Pj Hpi Hli Hh h ix Hin) as (Hh' & bpm' & Hbpm & Hget).
      simplify_eq. split; [done|]. eexists. split; [done|].
      by apply Get_Set_mono.
    + rewrite list_lookup_insert_ne in HP by done. by eapply Hrec.
  - (* a round state pointer is cleared *)
    intros p l P Hpi Hli HP h ix Hin. simpl in Hpi, HP.
    destruct (decide (j = i)) as [->|Hne].
    + rewrite list_lookup_insert_eq in Hpi by (by eapply lookup_lt_Some).
      by simplify_eq.
    + rewrite list_lookup_insert_ne in Hpi by done. by eapply Hrec.
Qed.

(** A call of [doSync] for the peer itself: the part it returns, if any, was
    not sent before, and is recorded. *)
Lemma doSync_records_sent s i rnd s' out sent :
  (forall (e : E) h, Len (GetMask (GetCommitBlockParts e h)) <= 2 ^ 16) ->
  doSyncCase s i rnd s' out ->
  sentRecorded s i sent -> NoDup sent ->
  sentRecorded s' i (sent ++ blockPartsOf (sentMessage out))
  /\ NoDup (sent ++ blockPartsOf (sentMessage out)).
Proof.
  intros Hfit Hc Hrec Hnd.
  pose proof (doSync_keeps_sentRecorded s i i rnd s' out sent Hc Hrec) as Hkeep.
  destruct Hc as [ | blk | pj lj Pj Hp Hl Hh Hm e mask
                 | pj lj Pj bpm idx Hp Hl Hh Hm partSet Hidx Hge | pj vl Hp ];
    simpl; rewrite ?app_nil_r; try done.
  destruct (picked_index _ _ _ _ Hidx Hge) as (Hclear & Hset & Hlt & Hlt').
  assert (Hu : uint16 idx = idx).
  { apply uint16_id. specialize (Hfit (syncer_engine s) (prs_Height Pj)).
    fold partSet in Hfit. lia. }
  rewrite Hu. split.
  - intros p l P Hpi Hli HP h ix Hin. apply elem_of_app in Hin as [Hin|Hin].
    + by eapply Hkeep.
    + apply list_elem_of_singleton in Hin. simplify_eq.
      simpl in Hpi, HP. simplify_eq.
      rewrite list_lookup_insert_eq in HP by (by eapply lookup_lt_Some).
      simplify_eq. simpl. split; [done|]. eexists. split; [done|].
      apply Get_Set_eq. lia.
  - apply list.NoDup_app. split; [done|]. split; [|apply NoDup_singleton].
    intros [h ix] Hin Hnew. apply list_elem_of_singleton in Hnew. simplify_eq.
    destruct (Hrec pj lj Pj Hp Hl Hh _ _ Hin) as (_ & bpm' & Hbpm & Hget).
    congruence.
Qed.

Lemma keepsRoundState_sentRecorded s s' i sent :
  keepsRoundState i s s' -> sentRecorded s i sent -> sentRecorded s' i sent.
Proof.
  intros [Hptr Hheap] Hrec p' l P Hpi Hli HP h ix Hin.
  rewrite Hpi in Hptr. simpl in Hptr.
  destruct (syncer_peers s !! i) as [p|] eqn:Hp; [|done].
  simpl in Hptr. simplify_eq.
  assert (Hl : peer_peerRoundState p = Some l) by congruence.
  rewrite (Hheap p l eq_refl Hl) in HP. by eapply Hrec.
Qed.

Lemma betweenUpdates_NoDup i s ms s' :
  (forall (e : E) h, Len (GetMask (GetCommitBlockParts e h)) <= 2 ^ 16) ->
  betweenUpdates i s ms s' ->
  forall sent, sentRecorded s i sent -> NoDup sent ->
               NoDup (sent ++ blockPartsOf ms).
Proof.
  intros Hfit Hrun.
  induction Hrun as [ s | s rnd s' evs out ms s'' Hd _ IH
                    | s j rnd s' evs out ms s'' Hj Hd _ IH
                    | s s' ms s'' Hk _ IH ]; intros sent Hrec Hnd.
  - simpl. by rewrite app_nil_r.
  - apply doSync_cases in Hd.
    destruct (doSync_records_sent _ _ _ _ _ _ Hfit Hd Hrec Hnd) as [Hrec' Hnd'].
    rewrite blockPartsOf_app, app_assoc. by apply IH.
  - apply doSync_cases in Hd. apply IH; [|done].
    by eapply doSync_keeps_sentRecorded.
  - apply IH; [|done]. by eapply keepsRoundState_sentRecorded.
Qed.

(** The callbacks that do not hand the peer a new round state are steps of
    the kind [keepsRoundState] describes. *)
Lemma lookup_map_pointer (f : peer -> peer) (ps : list peer) i :
  (forall p, peer_peerRoundState (f p) = peer_peerRoundState p) ->
  peer_peerRoundState <$> map f ps !! i = peer_peerRoundState <$> ps !! i.
Proof.
  intros Hf. rewrite list_lookup_fmap.
  destruct (ps !! i) as [p|]; simpl; [|done]. by rewrite Hf.
Qed.

Lemma OnEngineStepChange_keepsRoundState i s now timer :
  keepsRoundState i s (OnEngineStepChange s now timer).1.
Proof.
  unfold OnEngineStepChange.
  destruct (syncer_running s); simpl; [|done].
  destruct (_ || _); destruct (_ || _); simpl; split; try done.
  all: apply lookup_map_pointer; intros p; by destruct (bool_decide _).
Qed.

Lemma OnReceive_keepsRoundState i s sp bs id p :
  syncer_peers s !! i = Some p ->
  (forall l, peer_peerRoundState p = Some l -> is_Some (syncer_heap s !! l)) ->
  (forall prs, unmarshalMessage sp bs = inl (RoundStateMessage prs) ->
               peer_id p <> id) ->
  keepsRoundState i s (OnReceive s sp bs id).1.1.
Proof.
  intros Hp Hvalid Hother. unfold OnReceive.
  destruct (syncer_running s); simpl; [|done].
  destruct (unmarshalMessage sp bs) as [msg|err]; [|done].
  destruct (verify msg); [done|].
  destruct msg as [m|prs|vl].
  - destruct (ReceiveBlockPartMessage _ m true) as [e' [idx err]].
    destruct (_ && _); simpl; [done|]. split; [|done]. simpl.
    apply lookup_map_pointer. intros q. by destruct (wantsBlockPart _ _ q).
  - specialize (Hother prs eq_refl). split; simpl.
    + rewrite list_lookup_fmap, Hp. simpl.
      by rewrite bool_decide_eq_false_2.
    + intros p' l Hp' Hl. simplify_eq.
      destruct (Hvalid l Hl) as [P HP].
      by rewrite (lookup_app_l_Some _ _ _ _ HP).
  - by destruct (receiveVotes _ vl).
Qed.

Lemma OnJoin_keepsRoundState i s id :
  is_Some (syncer_peers s !! i) ->
  keepsRoundState i s (OnJoin s id).1.
Proof.
  intros [p Hp]. unfold OnJoin.
  destruct (syncer_running s); simpl; [|done].
  destruct (existsb _ _); simpl; [done|]. split; [|done]. simpl.
  by rewrite (lookup_app_l_Some _ _ _ _ Hp), Hp.
Qed.

Lemma OnBlock_keepsRoundState i s br : keepsRoundState i s (OnBlock s br).1.
Proof. unfold OnBlock. by destruct (syncer_running s). Qed.

Lemma OnEnd_keepsRoundState i s err : keepsRoundState i s (OnEnd s err).1.
Proof. unfold OnEnd. by destruct (syncer_running s). Qed.

Lemma set_slot_keepsRoundState i s p b :
  syncer_peers s !! i = Some p ->
  keepsRoundState i s
    (set_peers s (<[i := set_wakeUpChan p b]> (syncer_peers s))).
Proof.
  intros Hp. split; [|done]. simpl.
  rewrite list_lookup_insert_eq by (by eapply lookup_lt_Some).
  by rewrite Hp.
Qed.

(** An iteration of the send loop is such a run: it takes the token, calls
    [doSync] at most once and may put a token back. *)
Lemma syncLoop_betweenUpdates bps i s nextSendTime now rnd :
  exists ms,
    betweenUpdates i s ms (syncLoop bps s i nextSendTime now rnd).1.1.1.
Proof.
  assert (Hwake : forall s1 : syncer E,
            betweenUpdates i s1 []
              match syncer_peers s1 !! i with
              | Some p1 => set_peers s1 (<[i := wakeUp p1]> (syncer_peers s1))
              | None => s1
              end).
  { intros s1. destruct (syncer_peers s1 !! i) as [p1|] eqn:Hp1; [|constructor].
    eapply bu_env; [by apply set_slot_keepsRoundState | constructor]. }
  unfold syncLoop.
  destruct (syncer_peers s !! i) as [p|] eqn:Hp; [|eexists; constructor].
  destruct (peer_wakeUpChan p); simpl; [|eexists; constructor].
  pose proof (set_slot_keepsRoundState i s p false Hp) as Htake.
  destruct (peer_running p); simpl;
    [|eexists; eapply bu_env; [exact Htake | constructor]].
  destruct (match nextSendTime with Some t => now <? t | None => false end);
    [eexists; eapply bu_env; [exact Htake | constructor]|].
  destruct (doSync _ i rnd) as [[s1 evs] out] eqn:Hd.
  exists (sentMessage out ++ []).
  eapply bu_env; [exact Htake|]. eapply bu_doSync; [exact Hd|].
  destruct out as [[proto msg]|]; simpl; [|constructor].
  destruct (bps <? 0); simpl; [apply Hwake|].
  destruct (0 <? _); simpl; [constructor | apply Hwake].
Qed.

(** The calls of [doSync] by the peer's own task form a run. *)
Lemma doSyncs_betweenUpdates i rnds s :
  betweenUpdates i s (doSyncs s i rnds).2 (doSyncs s i rnds).1.
Proof.
  revert s. induction rnds as [|rnd rnds IH]; intros s; simpl.
  - constructor.
  - destruct (doSync s i rnd) as [[s' evs] out] eqn:Hd.
    specialize (IH s'). destruct (doSyncs s' i rnds) as [s'' ms]. simpl in *.
    by eapply bu_doSync.
Qed.


End Claims.

Section Claims.
Context `{Collaborators} {E : Type} `{!Engine E} `{!Codec}.
Implicit Types (s : syncer E) (p : peer) (P : peerRoundState).

(** Decides the integer tests of the goal from the hypotheses. *)
Ltac ztests :=
  repeat match goal with
         | |- context [?a <? ?b] => destruct (Z.ltb_spec a b); try lia
         | |- context [?a <=? ?b] => destruct (Z.leb_spec a b); try lia
         | |- context [?a =? ?b] => destruct (Z.eqb_spec a b); try lia
         end.

Lemma sub64_pred z : int64_range z -> - 2 ^ 63 < z -> sub64 z 1 = z - 1.
Proof. intros Hr Hz. apply wrap64_id. unfold int64_range in *. lia. Qed.

Lemma sub32_pred z : int32_range z -> - 2 ^ 31 < z -> sub32 z 1 = z - 1.
Proof. intros Hr Hz. apply wrap32_id. unfold int32_range in *. lia. Qed.

(** C3, as amended.  A peer that advertises a height above the engine's gets
    no message.  If moreover its round state has sync set, its height is more
    than [configFastSyncThreshold] above the engine's and no fetch is
    outstanding, [doSync] asks the block manager for the block below the
    engine's height and, when it gets one, calls [FetchBlocks] once, from the
    engine's height, to -1, with that block, and stores the handle it
    returns; when the block manager fails nothing else happens. *)
Theorem doSync_far_ahead s i rnd P :
  peerRoundStateAt s i = Some P ->
  int64_range (Height (syncer_engine s)) ->
  int64_range (prs_Height P) ->
  Height (syncer_engine s) < prs_Height P ->
  let e := syncer_engine s in
  let below := sub64 (Height e) 1 in
  (exists s' evs, doSync s i rnd = (s', evs, None))
  /\ (- 2 ^ 63 < Height e -> below = Height e - 1)
  /\ (prs_Sync P = true ->
      Height e + configFastSyncThreshold < prs_Height P ->
      syncer_fetchCanceler s = None ->
      doSync s i rnd
      = match GetBlockByHeight (syncer_bm s) below with
        | inl blk =>
            (set_fetchCanceler s (FetchBlocks (syncer_fsm s) (Height e) (-1) blk),
             [EvGetBlockByHeight below; EvFetchBlocks (Height e) (-1) blk],
             None)
        | inr _ => (s, [EvGetBlockByHeight below], None)
        end).
Proof.
  intros HP He HPh Hgt e below. subst e below.
  apply peerRoundStateAt_Some in HP as (p & l & Hp & Hl & Hh).
  split; [|split].
  - unfold doSync. rewrite Hp, Hl, Hh.
    destruct (prs_Sync P); simpl; [|by eauto].
    destruct (Z.ltb_spec (prs_Height P) (Height (syncer_engine s))); [lia|].
    destruct (Z.eqb_spec (prs_Height P) (Height (syncer_engine s))); [lia|].
    destruct (Z.ltb_spec (Height (syncer_engine s)) (prs_Height P)); [|lia].
    simpl. destruct (_ && _); [|by eauto].
    destruct (GetBlockByHeight _ _); by eauto.
  - intros Hmin. by apply sub64_pred.
  - intros Hsync Hfar Hnil. unfold doSync. rewrite Hp, Hl, Hh, Hsync.
    assert (Hadd : add64 (Height (syncer_engine s)) configFastSyncThreshold
                   = Height (syncer_engine s) + configFastSyncThreshold).
    { apply wrap64_id. unfold int64_range, configFastSyncThreshold in *. lia. }
    rewrite Hadd, Hnil. simpl. ztests. simpl.
    all: try by destruct (GetBlockByHeight _ _).
Qed.

(** C4, as amended.  A peer with sync set, at the engine's height while the
    engine is before the commit step, and in an earlier round than the
    engine: [doSync] returns the engine's precommits of its round when the
    step is precommit-wait or later, and those of the round before otherwise;
    either way the peer's round state is cleared, and until a new one is set
    [doSync] has nothing for this peer. *)
Theorem doSync_earlier_round s i rnd P :
  peerRoundStateAt s i = Some P ->
  prs_Sync P = true ->
  prs_Height P = Height (syncer_engine s) ->
  Step (syncer_engine s) < stepCommit ->
  prs_Round P < Round (syncer_engine s) ->
  int32_range (prs_Round P) ->
  int32_range (Round (syncer_engine s)) ->
  let e := syncer_engine s in
  exists s',
    (stepPrecommitWait <= Step e ->
     doSync s i rnd
     = (s', [], Some (protoVoteList,
                      VoteListMessage (GetPrecommits e (Round e)))))
    /\ (Step e < stepPrecommitWait ->
        doSync s i rnd
        = (s', [], Some (protoVoteList,
                         VoteListMessage (GetPrecommits e (Round e - 1)))))
    /\ peerRoundStateAt s' i = None
    /\ (forall rnd', doSync s' i rnd' = (s', [], None)).
Proof.
  intros HP Hsync Hheight Hstep Hround HrP Hr e. subst e.
  apply peerRoundStateAt_Some in HP as (p & l & Hp & Hl & Hh).
  exists (set_peers s (<[i := set_peerRoundState p None]> (syncer_peers s))).
  assert (Hprev : sub32 (Round (syncer_engine s)) 1
                  = Round (syncer_engine s) - 1).
  { apply sub32_pred; [done|]. unfold int32_range in *. lia. }
  split; [|split; [|split]].
  - intros Hpcw. unfold doSync. rewrite Hp, Hl, Hh, Hsync. simpl.
    ztests; simpl. ztests. done.
  - intros Hpcw. unfold doSync. rewrite Hp, Hl, Hh, Hsync, Hprev. simpl.
    ztests; simpl. ztests; simpl. done.
  - by apply peerRoundStateAt_cleared.
  - intros rnd'. apply doSync_nil. by apply peerRoundStateAt_cleared.
Qed.

(** C5, as amended.  A peer with sync set, at the engine's height and round
    while the engine is before the commit step: [doSync] asks the engine for
    the votes of the round with the flipped copies of the peer's prevote and
    precommit masks; a non-empty answer is returned as a vote list and the
    peer's round state is cleared, an empty one gives no message and leaves
    everything as it was. *)
Theorem doSync_same_round s i rnd P :
  peerRoundStateAt s i = Some P ->
  prs_Sync P = true ->
  prs_Height P = Height (syncer_engine s) ->
  Step (syncer_engine s) < stepCommit ->
  prs_Round P = Round (syncer_engine s) ->
  let e := syncer_engine s in
  let vl := GetVotes e (Round e) (Flip (Copy (prs_PrevotesMask P)))
                     (Flip (Copy (prs_PrecommitsMask P))) in
  (vl <> [] ->
   exists s',
     doSync s i rnd = (s', [], Some (protoVoteList, VoteListMessage vl))
     /\ peerRoundStateAt s' i = None)
  /\ (vl = [] -> doSync s i rnd = (s, [], None)).
Proof.
  intros HP Hsync Hheight Hstep Hround e vl. subst e vl.
  apply peerRoundStateAt_Some in HP as (p & l & Hp & Hl & Hh).
  split.
  - intros Hne.
    exists (set_peers s (<[i := set_peerRoundState p None]> (syncer_peers s))).
    split; [|by apply peerRoundStateAt_cleared].
    unfold doSync, Copy in *. rewrite Hp, Hl, Hh, Hsync. simpl.
    destruct (GetVotes _ _ _ _) as [|v vl]; [done|].
    ztests; simpl; ztests; simpl; done.
  - intros Hnil.
    unfold doSync, Copy in *. rewrite Hp, Hl, Hh, Hsync, Hnil. simpl.
    ztests; simpl; ztests; simpl; done.
Qed.

End Claims.

Section Claims.
Context `{Collaborators} {E : Type} `{!Engine E} `{!Codec}.
Implicit Types (s : syncer E) (p : peer) (P : peerRoundState).

Lemma Stop_not_running s : syncer_running (Stop s).1 = false.
Proof.
  unfold Stop. destruct (syncer_timer _); simpl;
    destruct (syncer_fetchCanceler _); done.
Qed.

(** C9.  Once the running flag is false, as it is after [Stop], the callbacks
    of the reactor and of fast-sync return at once: the synchronizer is as
    before (peers, cancel handle and engine included), nothing is handed to
    the engine or to any collaborator, and [OnReceive] answers false with no
    error. *)
Theorem callbacks_after_Stop s :
  syncer_running s = false ->
  (forall sp bs id, OnReceive s sp bs id = (s, [], (false, None)))
  /\ (forall err pi b, OnFailure s err pi b = (s, []))
  /\ (forall id, OnJoin s id = (s, []))
  /\ (forall id, OnLeave s id = (s, []))
  /\ (forall br, OnBlock s br = (s, []))
  /\ (forall err, OnEnd s err = (s, [])).
Proof.
  intros Hstop.
  unfold OnReceive, OnFailure, OnJoin, OnLeave, OnBlock, OnEnd.
  rewrite Hstop. simpl. by repeat split.
Qed.

Lemma sendRoundStateMessage_peers s now timer :
  syncer_peers (sendRoundStateMessage s now timer).1 = syncer_peers s.
Proof. done. Qed.

(** C6, as amended.  While the synchronizer runs, [OnEngineStepChange] wakes
    the peers that have a round state, and only those, when the engine step
    is precommit-wait or commit, and wakes nobody at another step.  At the
    steps propose and commit it sends the engine's round state: a broadcast
    to the neighbours if there is at least one peer and no message otherwise,
    after which the running timer is stopped, a new one is armed and the time
    is recorded.  At the other steps it makes no call. *)
Theorem OnEngineStepChange_running s now timer :
  syncer_running s = true ->
  let e := syncer_engine s in
  let s' := (OnEngineStepChange s now timer).1 in
  let evs := (OnEngineStepChange s now timer).2 in
  (Step e = stepPrecommitWait \/ Step e = stepCommit ->
   syncer_peers s'
   = map (fun p => if bool_decide (peer_peerRoundState p <> None)
                   then wakeUp p else p) (syncer_peers s))
  /\ (Step e <> stepPrecommitWait -> Step e <> stepCommit ->
      syncer_peers s' = syncer_peers s)
  /\ (Step e = stepPropose \/ Step e = stepCommit ->
      evs = (if bool_decide (syncer_peers s = [])
             then []
             else [EvBroadcastNeighbor protoRoundState
                     (MarshalToBytes (RoundStateMessage (GetRoundState e)))])
            ++ match syncer_timer s with
               | Some t => [EvTimerStop t]
               | None => []
               end
            ++ [EvAfterFunc configRoundStateMessageInterval timer]
      /\ syncer_timer s' = Some timer
      /\ syncer_lastSendTime s' = now)
  /\ (Step e <> stepPropose -> Step e <> stepCommit ->
      evs = []
      /\ syncer_timer s' = syncer_timer s
      /\ syncer_lastSendTime s' = syncer_lastSendTime s).
Proof.
  intros Hrun e s' evs. subst e s' evs. unfold OnEngineStepChange.
  rewrite Hrun. simpl.
  assert (Hbc : forall ps : list peer,
            (if 0 <? Z.of_nat (length ps)
             then [EvBroadcastNeighbor protoRoundState
                     (MarshalToBytes
                        (RoundStateMessage (GetRoundState (syncer_engine s))))]
             else [])
            = (if bool_decide (syncer_peers s = [])
               then []
               else [EvBroadcastNeighbor protoRoundState
                       (MarshalToBytes
                          (RoundStateMessage (GetRoundState (syncer_engine s))))])
            \/ length ps <> length (syncer_peers s)).
  { intros ps. destruct (decide (length ps = length (syncer_peers s))) as [Hl|];
      [left | by right].
    rewrite Hl. by destruct (syncer_peers s). }
  destruct (Z.eqb_spec (Step (syncer_engine s)) stepPrecommitWait) as [Hw|Hw];
    destruct (Z.eqb_spec (Step (syncer_engine s)) stepCommit) as [Hc|Hc];
    destruct (Z.eqb_spec (Step (syncer_engine s)) stepPropose) as [Hp|Hp];
    simpl; (split; [|split; [|split]]);
    try (intros; done); try (intros [?|?]; done);
    intros _; (split; [|done]);
    unfold doSendRoundStateMessage; simpl; rewrite <- app_assoc; f_equal.
  all: match goal with
       | |- context [length ?ps] =>
           destruct (Hbc ps) as [->|Hlen]; [done|];
           exfalso; apply Hlen; by rewrite ?length_map
       end.
Qed.

End Claims.

Section Claims.
Context `{Collaborators} {E : Type} `{!Engine E} `{!Codec}.
Implicit Types (s : syncer E) (p : peer) (P : peerRoundState).

(** Every vote of the list is handed to the engine, in order, whatever the
    engine answers. *)
Lemma receiveVotes_events (e : E) (vl : voteList) :
  (receiveVotes e vl).2 = map EvReceiveVoteMessage vl.
Proof.
  revert e. induction vl as [|v vl IH]; intros e; [done|].
  simpl. specialize (IH (ReceiveVoteMessage e v true).1).
  destruct (receiveVotes _ vl) as [e'' evs]. simpl in *. by rewrite IH.
Qed.

(** C7, as amended.  While the synchronizer runs: a message that cannot be
    decoded, or that fails [verify], makes [OnReceive] return the error
    with the synchronizer unchanged and nothing delivered.  A block part the
    engine answers with an error makes [OnReceive] return that error after the
    one delivery: at once when the index is negative, and after the wake-up of
    the peers waiting for parts of that height otherwise; only the engine and
    wake-up slots change.  The answers of the engine to the votes of a vote
    list are dropped: every vote is delivered, in order, and [OnReceive]
    returns true without error. *)
Theorem OnReceive_errors s sp bs id :
  syncer_running s = true ->
  let e := syncer_engine s in
  (forall err, unmarshalMessage sp bs = inr err ->
     OnReceive s sp bs id = (s, [], (false, Some err)))
  /\ (forall msg err, unmarshalMessage sp bs = inl msg ->
        verify msg = Some err ->
        OnReceive s sp bs id = (s, [], (false, Some err)))
  /\ (forall m e' idx err,
        unmarshalMessage sp bs = inl (BlockPartMessage m) ->
        verify (BlockPartMessage m) = None ->
        ReceiveBlockPartMessage e m true = (e', (idx, Some err)) ->
        let s1 := set_engine s e' in
        let woken :=
          map (fun p => if wantsBlockPart s1 (bp_Height m) p
                        then wakeUp p else p) (syncer_peers s) in
        OnReceive s sp bs id
        = (if idx <? 0 then s1 else set_peers s1 woken,
           [EvReceiveBlockPartMessage m], (false, Some err)))
  /\ (forall vl,
        unmarshalMessage sp bs = inl (VoteListMessage vl) ->
        verify (VoteListMessage vl) = None ->
        OnReceive s sp bs id
        = (set_engine s (receiveVotes e vl).1,
           map EvReceiveVoteMessage vl, (true, None))).
Proof.
  intros Hrun e. subst e. unfold OnReceive. rewrite Hrun. simpl.
  split; [|split; [|split]].
  - intros err ->. done.
  - intros msg err -> ->. done.
  - intros m e' idx err -> -> ->. simpl.
    by destruct (idx <? 0).
  - intros vl -> ->. rewrite <- (receiveVotes_events (syncer_engine s) vl).
    by destruct (receiveVotes _ vl).
Qed.

Lemma sendDelta_exact bps len :
  0 < bps -> 0 <= len -> Second * len < 2 ^ 63 ->
  sendDelta bps len = (Second * len) / bps.
Proof.
  intros Hbps Hlen Hfit. unfold sendDelta, mul64.
  rewrite wrap64_id by (unfold int64_range, Second in *; lia).
  apply Z.quot_div_nonneg; unfold Second in *; lia.
Qed.


End Claims.

(** * Further properties *)

(** ** The peer list: [OnJoin] and [OnLeave] *)

Section PeerList.
Context `{Collaborators} {E : Type} `{!Engine E} `{!Codec}.
Implicit Types (s : syncer E) (p : peer) (P : peerRoundState).

Lemma existsb_peer_id id (ps : list peer) :
  existsb (fun p => bool_decide (peer_id p = id)) ps = true
  <-> id ∈ map peer_id ps.
Proof.
  rewrite existsb_exists, list_elem_of_fmap. split.
  - intros (p & Hin & Hid). apply bool_decide_eq_true in Hid.
    exists p. split; [done|]. by apply list_elem_of_In.
  - intros (p & -> & Hin). exists p. split; [by apply list_elem_of_In|].
    by apply bool_decide_eq_true.
Qed.

Lemma findPeer_None id (ps : list peer) :
  findPeer id ps = None <-> id ∉ map peer_id ps.
Proof.
  induction ps as [|p ps IH]; simpl.
  - split; [intros _; apply not_elem_of_nil | done].
  - rewrite not_elem_of_cons. case_bool_decide as Hid.
    + split; [done | intros [Hne _]; by destruct Hne].
    + destruct (findPeer id ps) as [i|]; simpl.
      * split; [done|]. intros [_ Hnot]. by apply IH in Hnot.
      * split; [|done]. intros _. split; [done | by apply IH].
Qed.

Lemma findPeer_Some id (ps : list peer) i :
  findPeer id ps = Some i ->
  exists p, ps !! i = Some p /\ peer_id p = id.
Proof.
  revert i. induction ps as [|p ps IH]; intros i; simpl; [done|].
  case_bool_decide as Hid.
  - intros [= <-]. by exists p.
  - destruct (findPeer id ps) as [j|]; simpl; [|done].
    intros [= <-]. by apply IH.
Qed.

Lemma findPeer_fresh id (ps : list peer) p :
  id ∉ map peer_id ps -> peer_id p = id ->
  findPeer id (ps ++ [p]) = Some (length ps).
Proof.
  intros Hfresh Hid. induction ps as [|q ps IH]; simpl.
  - by rewrite bool_decide_eq_true_2.
  - simpl in Hfresh. apply not_elem_of_cons in Hfresh as [Hne Hfresh].
    rewrite bool_decide_eq_false_2 by done. by rewrite IH.
Qed.

(** Swap with the last record and drop it: the record at [i] goes, the
    others stay. *)
Lemma swap_pop_Permutation (ps : list peer) i p q :
  ps !! i = Some p ->
  ps !! (length ps - 1)%nat = Some q ->
  ps ≡ₚ p :: take (length ps - 1) (<[i := q]> ps).
Proof.
  intros Hp Hq.
  assert (Hlen : (i < length ps)%nat) by (by eapply lookup_lt_Some).
  assert (Hps : ps = take (length ps - 1) ps ++ [q]).
  { rewrite <- (take_drop (length ps - 1) ps) at 1. f_equal.
    rewrite (drop_S _ q _ Hq).
    rewrite drop_ge by lia. done. }
  destruct (decide (i = (length ps - 1)%nat)) as [->|Hne].
  - rewrite take_insert_ge by lia. assert (p = q) as -> by congruence.
    rewrite Hps at 1. by rewrite Permutation_app_comm.
  - assert (Hi : (i < length ps - 1)%nat) by lia.
    rewrite take_insert_lt by lia.
    set (mid := take (length ps - 1) ps) in *.
    assert (Hmid : mid !! i = Some p).
    { unfold mid. by rewrite lookup_take_lt. }
    rewrite Hps at 1.
    rewrite (insert_take_drop mid i q) by (by eapply lookup_lt_Some).
    rewrite <- (take_drop_middle mid i p Hmid) at 1.
    rewrite Permutation_app_comm. simpl.
    rewrite <- !Permutation_middle. apply perm_swap.
Qed.

(** A second [OnJoin] of the same peer changes nothing and makes no call;
    after a join the peer is in the list, and identities that were unique
    stay unique. *)
Theorem OnJoin_idempotent s id :
  syncer_running s = true ->
  let s1 := (OnJoin s id).1 in
  OnJoin s1 id = (s1, [])
  /\ id ∈ peerIDs s1
  /\ (NoDup (peerIDs s) -> NoDup (peerIDs s1)).
Proof.
  intros Hrun s1. subst s1. unfold OnJoin, peerIDs. rewrite Hrun. simpl.
  destruct (existsb _ (syncer_peers s)) eqn:Hex; simpl.
  - rewrite Hrun, Hex. simpl. split; [done|]. split; [|done].
    by apply existsb_peer_id.
  - assert (Hfresh : id ∉ map peer_id (syncer_peers s)).
    { intros Hin. apply existsb_peer_id in Hin. congruence. }
    rewrite Hrun. simpl.
    assert (Hin : id ∈ map peer_id (syncer_peers s ++ [newPeer id])).
    { rewrite map_app. apply elem_of_app. right. simpl. apply list_elem_of_here. }
    apply existsb_peer_id in Hin as Hex'. rewrite Hex'. simpl.
    split; [done|]. split; [done|].
    intros Hnd. rewrite map_app. apply list.NoDup_app. split; [done|].
    split; [|apply NoDup_singleton].
    intros x Hx Hx'. simpl in Hx'. apply list_elem_of_singleton in Hx'.
    by subst x.
Qed.

(** A peer that is not in the list yet gets a record of its own at the end
    of the list, a task, and the engine's round state by unicast; nothing is
    broadcast, the other records stay, and until the first round state from
    it arrives [doSync] has nothing to send to it. *)
Theorem OnJoin_new s id :
  syncer_running s = true ->
  id ∉ peerIDs s ->
  let s1 := (OnJoin s id).1 in
  let n := length (syncer_peers s) in
  syncer_peers s1 = syncer_peers s ++ [newPeer id]
  /\ (OnJoin s id).2
     = [EvGoSync id;
        EvUnicast protoRoundState
          (MarshalToBytes (RoundStateMessage (GetRoundState (syncer_engine s))))
          id]
  /\ (forall rnd, doSync s1 n rnd = (s1, [], None)).
Proof.
  intros Hrun Hfresh s1 n. subst s1 n. unfold OnJoin, peerIDs in *.
  rewrite Hrun. simpl.
  destruct (existsb _ (syncer_peers s)) eqn:Hex.
  { apply existsb_peer_id in Hex. done. }
  simpl. split; [done|]. split; [done|].
  intros rnd. unfold doSync. simpl.
  rewrite lookup_app_r by lia. by rewrite Nat.sub_diag.
Qed.

(** [OnLeave] of a peer that is not in the list changes nothing.  Otherwise
    one record of that identity is taken out and stopped, the other records
    stay (in some order), nothing else changes, and with unique identities
    the peer is gone from the list. *)
Theorem OnLeave_removes s id :
  syncer_running s = true ->
  let s1 := (OnLeave s id).1 in
  (id ∉ peerIDs s -> OnLeave s id = (s, []))
  /\ (id ∈ peerIDs s ->
      (exists p, peer_id p = id /\ syncer_peers s ≡ₚ p :: syncer_peers s1)
      /\ (OnLeave s id).2 = [EvAwaitStopped id]
      /\ s1 = set_peers s (syncer_peers s1)
      /\ (NoDup (peerIDs s) -> NoDup (peerIDs s1) /\ id ∉ peerIDs s1)).
Proof.
  intros Hrun s1. subst s1. unfold OnLeave, peerIDs. rewrite Hrun. simpl.
  split.
  - intros Hnot. apply findPeer_None in Hnot. by rewrite Hnot.
  - intros Hin.
    destruct (findPeer id (syncer_peers s)) as [i|] eqn:Hfind;
      [|by apply findPeer_None in Hfind].
    destruct (findPeer_Some _ _ _ Hfind) as (p & Hp & Hid).
    rewrite Hp.
    assert (Hlast : is_Some (syncer_peers s !! (length (syncer_peers s) - 1)%nat)).
    { apply lookup_lt_is_Some. apply lookup_lt_Some in Hp. lia. }
    destruct Hlast as [q Hq]. rewrite Hq. simpl.
    pose proof (swap_pop_Permutation _ _ _ _ Hp Hq) as Hperm.
    split; [by exists p|]. split; [by rewrite Hid|]. split; [done|].
    intros Hnd.
    assert (Hperm' : map peer_id (syncer_peers s)
                     ≡ₚ id :: map peer_id
                              (take (length (syncer_peers s) - 1)
                                 (<[i := q]> (syncer_peers s)))).
    { rewrite Hperm at 1. simpl. by rewrite Hid. }
    rewrite Hperm' in Hnd. by apply list.NoDup_cons in Hnd as [Hnotin Hnd'].
Qed.

(** A peer that joins and leaves again leaves the synchronizer as it was. *)
Theorem OnJoin_OnLeave s id :
  syncer_running s = true ->
  id ∉ peerIDs s ->
  (OnLeave (OnJoin s id).1 id).1 = s.
Proof.
  intros Hrun Hfresh. unfold OnJoin, peerIDs in *. rewrite Hrun. simpl.
  destruct (existsb _ (syncer_peers s)) eqn:Hex.
  { apply existsb_peer_id in Hex. done. }
  simpl. unfold OnLeave. simpl. rewrite Hrun. simpl.
  rewrite (findPeer_fresh id (syncer_peers s) (newPeer id)) by done.
  rewrite length_app. simpl.
  replace (length (syncer_peers s) + 1 - 1)%nat
    with (length (syncer_peers s)) by lia.
  rewrite lookup_app_r by lia. rewrite Nat.sub_diag. simpl.
  rewrite take_insert_ge by lia. rewrite take_app_length.
  by destruct s.
Qed.

End PeerList.

(** ** Shutdown, the broadcast timer and the send loop *)

Section Lifecycle.
Context `{Collaborators} {E : Type} `{!Engine E} `{!Codec}.
Implicit Types (s : syncer E) (p : peer) (P : peerRoundState).

Lemma Stop_peers s :
  syncer_peers (Stop s).1 = map (fun p => (stop p).1) (syncer_peers s).
Proof.
  unfold Stop. destruct (syncer_timer _); simpl;
    destruct (syncer_fetchCanceler _); done.
Qed.

Lemma Stop_fields s :
  syncer_running (Stop s).1 = false
  /\ syncer_timer (Stop s).1 = None
  /\ syncer_fetchCanceler (Stop s).1 = None
  /\ syncer_engine (Stop s).1 = syncer_engine s
  /\ syncer_heap (Stop s).1 = syncer_heap s.
Proof.
  unfold Stop. simpl. destruct (syncer_timer s) eqn:Ht; simpl;
    destruct (syncer_fetchCanceler s) eqn:Hc; simpl; by rewrite ?Ht, ?Hc.
Qed.

Lemma Stop_events s :
  (Stop s).2
  = map EvAwaitStopped (peerIDs s)
    ++ match syncer_timer s with Some t => [EvTimerStop t] | None => [] end
    ++ [EvStopServer]
    ++ match syncer_fetchCanceler s with
       | Some c => [EvCancelFetch c]
       | None => []
       end.
Proof.
  assert (Hev : flat_map (fun p => (stop p).2) (syncer_peers s)
                = map EvAwaitStopped (peerIDs s)).
  { unfold peerIDs. induction (syncer_peers s) as [|p ps IH]; [done|].
    simpl. f_equal. exact IH. }
  unfold Stop. rewrite Hev. simpl.
  destruct (syncer_timer s); simpl; destruct (syncer_fetchCanceler s);
    simpl; by rewrite <- ?app_assoc.
Qed.

(** After [Stop] the task of every peer ends on its next iteration: it takes
    the token [Stop] left for it, signals that it has stopped and leaves the
    loop, without a call of [doSync] and without sending. *)
Theorem Stop_ends_tasks s i p bps nextSendTime now rnd :
  syncer_peers s !! i = Some p ->
  let s1 := (Stop s).1 in
  syncLoop bps s1 i nextSendTime now rnd
  = (set_peers s1
       (<[i := set_wakeUpChan (set_peer_running p false) false]>
          (syncer_peers s1)),
     [EvSignalStopped (peer_id p)], nextSendTime, LoopBreak).
Proof.
  intros Hp s1. subst s1. unfold syncLoop.
  rewrite Stop_peers, list_lookup_fmap, Hp. simpl. done.
Qed.

(** [Stop] clears the running flag, stops the timer that is armed and cancels
    the fetch that is outstanding, each once; a second [Stop] finds neither,
    and a timer that fires after [Stop] does nothing. *)
Theorem Stop_once s :
  let s1 := (Stop s).1 in
  syncer_running s1 = false
  /\ (forall t, EvTimerStop t ∈ (Stop s).2 <-> syncer_timer s = Some t)
  /\ (forall c, EvCancelFetch c ∈ (Stop s).2 <-> syncer_fetchCanceler s = Some c)
  /\ (Stop s1).2 = map EvAwaitStopped (peerIDs s) ++ [EvStopServer]
  /\ (forall timer now timer', roundStateTimerFunc s1 timer now timer' = (s1, [])).
Proof.
  intros s1. subst s1.
  destruct (Stop_fields s) as (Hrun & Ht & Hc & _ & _).
  split; [done|].
  assert (Hnot : forall ev : event,
            (forall id, ev <> EvAwaitStopped id) ->
            ev ∉ map EvAwaitStopped (peerIDs s)).
  { intros ev Hne Hin. apply list_elem_of_fmap in Hin as (id & -> & _).
    by eapply Hne. }
  split; [|split; [|split]].
  - intros t. rewrite Stop_events, !elem_of_app. split.
    + intros [Hin|[Hin|[Hin|Hin]]].
      * by apply Hnot in Hin.
      * destruct (syncer_timer s); [|by apply elem_of_nil in Hin].
        apply list_elem_of_singleton in Hin. congruence.
      * apply list_elem_of_singleton in Hin. done.
      * destruct (syncer_fetchCanceler s); [|by apply elem_of_nil in Hin].
        apply list_elem_of_singleton in Hin. done.
    + intros ->. right. left. apply list_elem_of_here.
  - intros c. rewrite Stop_events, !elem_of_app. split.
    + intros [Hin|[Hin|[Hin|Hin]]].
      * by apply Hnot in Hin.
      * destruct (syncer_timer s); [|by apply elem_of_nil in Hin].
        apply list_elem_of_singleton in Hin. done.
      * apply list_elem_of_singleton in Hin. done.
      * destruct (syncer_fetchCanceler s); [|by apply elem_of_nil in Hin].
        apply list_elem_of_singleton in Hin. congruence.
    + intros ->. right. right. right. apply list_elem_of_here.
  - rewrite Stop_events, Ht, Hc. simpl. f_equal.
    unfold peerIDs. rewrite Stop_peers, !map_map. done.
  - intros timer now timer'. unfold roundStateTimerFunc. rewrite Ht.
    by rewrite bool_decide_eq_false_2.
Qed.

(** Of two timers armed one after the other only the second is live: arming
    the second stops the first, the function of the first does nothing when
    it still runs, and the function of the second sends the round state again
    and arms the next timer. *)
Theorem timer_replacement s now1 t1 now2 t2 :
  t1 <> t2 ->
  let s1 := (sendRoundStateMessage s now1 t1).1 in
  let s2 := (sendRoundStateMessage s1 now2 t2).1 in
  EvTimerStop t1 ∈ (sendRoundStateMessage s1 now2 t2).2
  /\ (forall now t', roundStateTimerFunc s2 t1 now t' = (s2, []))
  /\ (forall now t',
        roundStateTimerFunc s2 t2 now t' = sendRoundStateMessage s2 now t'
        /\ syncer_timer (roundStateTimerFunc s2 t2 now t').1 = Some t'
        /\ syncer_lastSendTime (roundStateTimerFunc s2 t2 now t').1 = now
        /\ EvAfterFunc configRoundStateMessageInterval t'
           ∈ (roundStateTimerFunc s2 t2 now t').2).
Proof.
  intros Hne s1 s2. subst s1 s2. split; [|split].
  - unfold sendRoundStateMessage. simpl. rewrite !elem_of_app.
    left. right. apply list_elem_of_here.
  - intros now t'. unfold roundStateTimerFunc. simpl.
    rewrite bool_decide_eq_false_2; [done|]. congruence.
  - intros now t'. unfold roundStateTimerFunc. simpl.
    rewrite bool_decide_eq_true_2 by done.
    split; [done|]. split; [done|]. split; [done|].
    unfold sendRoundStateMessage. simpl. rewrite !elem_of_app.
    right. apply list_elem_of_here.
Qed.

(** [doSync] makes no network call: its events are the query of the block
    manager and the fetch that follows it. *)
Lemma doSync_events s i rnd :
  unicasts (doSync s i rnd).1.2 = [] /\ broadcasts (doSync s i rnd).1.2 = [].
Proof.
  unfold doSync. repeat case_match; done.
Qed.


(** An iteration of the send loop sends at most one message: the one
    [doSync] chose, marshalled, to the identity of the peer of the task.  It
    never broadcasts.  When [doSync] has nothing to send, the schedule is
    dropped. *)
Theorem syncLoop_unicasts bps s i p nextSendTime now rnd :
  syncer_peers s !! i = Some p ->
  let s0 := set_peers s (<[i := set_wakeUpChan p false]> (syncer_peers s)) in
  let evs := (syncLoop bps s i nextSendTime now rnd).1.1.2 in
  broadcasts evs = []
  /\ (unicasts evs = []
      \/ exists proto msg,
           (doSync s0 i rnd).2 = Some (proto, msg)
           /\ unicasts evs = [(proto, MarshalToBytes msg, peer_id p)])
  /\ (peer_wakeUpChan p = true -> peer_running p = true ->
      (forall t, nextSendTime = Some t -> t <= now) ->
      (doSync s0 i rnd).2 = None ->
      syncLoop bps s i nextSendTime now rnd
      = ((doSync s0 i rnd).1.1, (doSync s0 i rnd).1.2, None, LoopContinue)).
Proof.
  intros Hp s0 evs. subst s0 evs. unfold syncLoop. rewrite Hp.
  pose proof (doSync_events
                (set_peers s (<[i := set_wakeUpChan p false]> (syncer_peers s)))
                i rnd) as [Hu Hb].
  destruct (peer_wakeUpChan p); simpl;
    [|split; [done|]; split; [by left | done]].
  destruct (peer_running p); simpl;
    [|split; [done|]; split; [by left | done]].
  destruct nextSendTime as [t|].
  - destruct (Z.ltb_spec now t) as [Hlt|Hge]; simpl.
    { split; [done|]. split; [by left|]. intros _ _ Hdue.
      specialize (Hdue t eq_refl). lia. }
    destruct (doSync _ i rnd) as [[s1 evs] [[proto msg]|]]; simpl in *.
    + destruct (bps <? 0); [|destruct (0 <? _)]; simpl;
        unfold unicasts, broadcasts in *; rewrite ?omap_app, ?Hu, ?Hb; simpl;
        (split; [done|]); (split; [right; by exists proto, msg | done]).
    + split; [done|]. split; [by left | done].
  - destruct (doSync _ i rnd) as [[s1 evs] [[proto msg]|]]; simpl in *.
    + destruct (bps <? 0); [|destruct (0 <? _)]; simpl;
        unfold unicasts, broadcasts in *; rewrite ?omap_app, ?Hu, ?Hb; simpl;
        (split; [done|]); (split; [right; by exists proto, msg | done]).
    + split; [done|]. split; [by left | done].
Qed.

End Lifecycle.

(** ** What [doSync] sends *)

Section Selection.
Context `{Collaborators} {E : Type} `{!Engine E} `{!Codec}.
Implicit Types (s : syncer E) (p : peer) (P : peerRoundState).
Implicit Types (ba bpm gm : bitArray).

Lemma count_le_length ba : (count ba <= length ba)%nat.
Proof.
  induction ba as [|b ba IH]; [done|]. rewrite count_cons.
  destruct b; simpl; lia.
Qed.

Lemma count_insert ba (n : nat) :
  ba !! n = Some false -> count (<[n := true]> ba) = S (count ba).
Proof.
  revert n. induction ba as [|b ba IH]; intros n Hn; [done|].
  destruct n as [|n]; simpl in *.
  - simplify_eq. by rewrite !count_cons.
  - rewrite !count_cons, (IH n Hn). by destruct b.
Qed.

Lemma count_Set idx ba :
  0 <= idx < Len ba -> Get idx ba = false ->
  count (Set_ idx ba) = S (count ba).
Proof.
  intros Hr Hget. unfold Set_, Get, Len in *.
  destruct (Z.ltb_spec idx 0); [lia|]. apply count_insert.
  destruct (ba !! Z.to_nat idx) as [b|] eqn:Hl.
  - simpl in Hget. by subst b.
  - apply lookup_ge_None in Hl. lia.
Qed.

Lemma count_clear ba :
  (count ba < length ba)%nat -> exists idx, 0 <= idx < Len ba /\ Get idx ba = false.
Proof.
  induction ba as [|b ba IH]; simpl; [lia|]. rewrite count_cons. intros Hc.
  destruct b.
  - destruct IH as (idx & Hr & Hget); [simpl in Hc; lia|].
    exists (idx + 1). unfold Len, Get in *. simpl.
    destruct (Z.ltb_spec idx 0); [lia|].
    destruct (Z.ltb_spec (idx + 1) 0); [lia|].
    replace (Z.to_nat (idx + 1)) with (S (Z.to_nat idx)) by lia.
    split; [lia | done].
  - exists 0. unfold Len. simpl. split; [lia | done].
Qed.

Lemma count_full ba :
  count ba = length ba -> ba = replicate (length ba) true.
Proof.
  induction ba as [|b ba IH]; [done|]. rewrite count_cons.
  pose proof (count_le_length ba). destruct b; simpl; [|lia].
  intros Hc. f_equal. apply IH. lia.
Qed.

Lemma Get_replicate_true idx (n : nat) :
  0 <= idx < Z.of_nat n -> Get idx (replicate n true) = true.
Proof.
  intros Hr. apply Get_lookup. split; [lia|].
  apply lookup_replicate. split; [done | lia].
Qed.

(** The bits of the mask [doSync] picks from: the parts the part set has and
    the peer's mask, inside its size, does not. *)
Lemma Get_missing idx bpm gm :
  Get idx (AssignAnd (Flip (Copy bpm)) gm) = true
  <-> 0 <= idx < Len bpm /\ Get idx gm = true /\ Get idx bpm = false.
Proof.
  rewrite Get_AssignAnd, andb_true_iff. unfold Copy. split.
  - intros [Hf Hg]. pose proof (Get_lt_Len _ _ Hf) as Hr.
    rewrite Len_Flip in Hr. rewrite Get_Flip in Hf by done.
    apply negb_true_iff in Hf. done.
  - intros (Hr & Hg & Hb). rewrite Get_Flip by done. by rewrite Hb.
Qed.

Lemma set_BlockPartsMask_id P :
  set_BlockPartsMask P (prs_BlockPartsMask P) = P.
Proof. by destruct P. Qed.

(** A message from [doSync] goes to a peer that asked for sync and is not
    ahead of the engine, and no call to a collaborator is made in the same
    call.  It is a vote list under the vote-list tag, or a block part under
    the block-part tag, of the peer's height, with a 16-bit index, sent only
    when the peer is behind or the engine is at the commit step; a round
    state is never sent by [doSync]. *)
Theorem doSync_message_shape s i rnd pi msg :
  (doSync s i rnd).2 = Some (pi, msg) ->
  let e := syncer_engine s in
  exists P,
    peerRoundStateAt s i = Some P
    /\ prs_Sync P = true
    /\ prs_Height P <= Height e
    /\ (doSync s i rnd).1.2 = []
    /\ ((pi = protoVoteList /\ exists vl, msg = VoteListMessage vl)
        \/ (pi = protoBlockPart
            /\ (prs_Height P < Height e \/ stepCommit <= Step e)
            /\ exists m, msg = BlockPartMessage m
                         /\ bp_Height m = prs_Height P
                         /\ 0 <= bp_Index m < 2 ^ 16)).
Proof.
  intros Hout e. subst e. unfold doSync in *.
  destruct (syncer_peers s !! i) as [p|] eqn:Hp; [|done].
  destruct (peer_peerRoundState p) as [l|] eqn:Hl; [|done].
  destruct (syncer_heap s !! l) as [P|] eqn:Hh; [|done].
  exists P. split.
  { apply peerRoundStateAt_Some. by exists p, l. }
  destruct (prs_Sync P); simpl in *; [|done]. split; [done|].
  destruct (Z.ltb_spec (prs_Height P) (Height (syncer_engine s))) as [Hlt|Hge];
    simpl in *.
  - split; [lia|].
    destruct (prs_BlockPartsMask P) as [bpm|]; simpl in *.
    + destruct (PickRandom _ _ <? 0); simpl in *; [done|]. simplify_eq.
      split; [done|]. right. split; [done|]. split; [by left|].
      eexists. split; [done|]. simpl. split; [done|].
      unfold uint16. apply Z.mod_pos_bound. lia.
    + simplify_eq. split; [done|]. left. eauto.
  - destruct (Z.eqb_spec (prs_Height P) (Height (syncer_engine s))) as [Heq|Hne];
      simpl in *.
    + destruct (Z.leb_spec stepCommit (Step (syncer_engine s))) as [Hst|Hst];
        simpl in *.
      * split; [lia|].
        destruct (prs_BlockPartsMask P) as [bpm|]; simpl in *.
        -- destruct (PickRandom _ _ <? 0); simpl in *; [done|]. simplify_eq.
           split; [done|]. right. split; [done|]. split; [by right|].
           eexists. split; [done|]. simpl. split; [done|].
           unfold uint16. apply Z.mod_pos_bound. lia.
        -- simplify_eq. split; [done|]. left. eauto.
      * destruct (Z.ltb_spec (Height (syncer_engine s)) (prs_Height P)); [lia|].
        split; [lia|].
        repeat case_match; simpl in *; simplify_eq; split; try done;
          left; eauto.
    + destruct (Z.ltb_spec (Height (syncer_engine s)) (prs_Height P)); [|lia].
      repeat case_match; simpl in *; simplify_eq.
Qed.

(** The step of [doSync] that picks a block part, for a peer with a mask. *)
Lemma doSync_part_step s i rnd P bpm :
  peerRoundStateAt s i = Some P ->
  prs_Sync P = true ->
  prs_Height P < Height (syncer_engine s)
  \/ (prs_Height P = Height (syncer_engine s)
      /\ stepCommit <= Step (syncer_engine s)) ->
  prs_BlockPartsMask P = Some bpm ->
  let partSet := GetCommitBlockParts (syncer_engine s) (prs_Height P) in
  let missing idx :=
    0 <= idx < Len bpm /\ Get idx (GetMask partSet) = true
    /\ Get idx bpm = false in
  ((forall idx, ~ missing idx) -> doSync s i rnd = (s, [], None))
  /\ ((exists idx, missing idx) ->
      exists idx s',
        missing idx
        /\ doSync s i rnd
           = (s', [],
              Some (protoBlockPart,
                    BlockPartMessage
                      {| bp_Height := prs_Height P;
                         bp_Index := uint16 idx;
                         bp_BlockPart := Bytes (GetPart partSet idx) |}))
        /\ peerRoundStateAt s' i
           = Some (set_BlockPartsMask P (Some (Set_ idx bpm)))
        /\ Get idx (Set_ idx bpm) = true
        /\ (forall j, 0 <= j -> j <> idx ->
                      Get j (Set_ idx bpm) = Get j bpm)).
Proof.
  intros HP Hsync Hbehind Hmask partSet missing.
  apply peerRoundStateAt_Some in HP as (p & l & Hp & Hl & Hh).
  assert (Htest : (prs_Height P <? Height (syncer_engine s))
                  || ((prs_Height P =? Height (syncer_engine s))
                      && (stepCommit <=? Step (syncer_engine s))) = true).
  { apply orb_true_iff. destruct Hbehind as [Hlt|[Heq Hst]].
    - left. by apply Z.ltb_lt.
    - right. apply andb_true_iff. split; [by apply Z.eqb_eq | by apply Z.leb_le]. }
  assert (Hd : doSync s i rnd
               = let idx := PickRandom rnd
                              (AssignAnd (Flip (Copy bpm)) (GetMask partSet)) in
                 if idx <? 0 then (s, [], None)
                 else (set_heap s
                         (<[l := set_BlockPartsMask P (Some (Set_ idx bpm))]>
                            (syncer_heap s)),
                       [],
                       Some (protoBlockPart,
                             BlockPartMessage
                               {| bp_Height := prs_Height P;
                                  bp_Index := uint16 idx;
                                  bp_BlockPart := Bytes (GetPart partSet idx) |}))).
  { unfold doSync. by rewrite Hp, Hl, Hh, Hsync, Htest, Hmask. }
  rewrite Hd. cbv zeta.
  set (idx := PickRandom rnd (AssignAnd (Flip (Copy bpm)) (GetMask partSet))).
  split.
  - intros Hnone.
    assert (Hneg : idx < 0).
    { apply PickRandom_none. intros j. apply not_true_is_false.
      intros Hj. apply Get_missing in Hj. by apply (Hnone j). }
    by destruct (Z.ltb_spec idx 0); [|lia].
  - intros (j & Hj).
    assert (Hge : 0 <= idx).
    { destruct (Z.ltb_spec idx 0) as [Hneg|]; [|done].
      apply PickRandom_none with (idx := j) in Hneg.
      apply Get_missing in Hj. congruence. }
    assert (Hmiss : missing idx).
    { apply Get_missing. by apply (PickRandom_set rnd). }
    destruct (Z.ltb_spec idx 0); [lia|].
    eexists idx, _. split; [done|]. split; [done|].
    destruct Hmiss as (Hr & _ & _). split; [|split].
    + rewrite peerRoundStateAt_set_heap, Hp. simpl. rewrite Hl. simpl.
      apply list_lookup_insert_eq. by eapply lookup_lt_Some.
    + by apply Get_Set_eq.
    + intros k Hk Hne. apply Get_Set_ne; [lia | done | done].
Qed.


(** While a fetch is outstanding [doSync] starts no other: it makes no call
    and keeps the handle.  A fetch that [doSync] starts is the only call of
    [FetchBlocks] of that call of [doSync], is made when no handle is stored,
    from the engine's height with the block below it, and its handle is
    stored.  [OnEnd] clears the handle while the synchronizer runs. *)
Theorem doSync_one_fetch s i rnd :
  let e := syncer_engine s in
  let s' := (doSync s i rnd).1.1 in
  let evs := (doSync s i rnd).1.2 in
  (syncer_fetchCanceler s <> None ->
   evs = [] /\ syncer_fetchCanceler s' = syncer_fetchCanceler s)
  /\ (forall f, f ∈ fetches evs ->
        syncer_fetchCanceler s = None
        /\ fetches evs = [f]
        /\ (doSync s i rnd).2 = None
        /\ exists blk,
             f = (Height e, -1, blk)
             /\ GetBlockByHeight (syncer_bm s) (sub64 (Height e) 1) = inl blk
             /\ syncer_fetchCanceler s'
                = FetchBlocks (syncer_fsm s) (Height e) (-1) blk)
  /\ (forall err, syncer_running s = true ->
        syncer_fetchCanceler (OnEnd s err).1 = None).
Proof.
  intros e s' evs. subst e s' evs. split; [|split].
  - intros Hout. unfold doSync.
    repeat case_match; simplify_eq; try done;
      try (by rewrite andb_false_r in *);
      match goal with
      | Hb : _ && bool_decide _ = true |- _ =>
          apply andb_true_iff in Hb as [_ Hb];
          apply bool_decide_eq_true in Hb; done
      end.
  - intros f. unfold doSync.
    repeat case_match; simplify_eq; simpl;
      try (intros Hin; by apply elem_of_nil in Hin).
    intros Hin. apply list_elem_of_singleton in Hin. subst f.
    match goal with
    | Hb : _ && bool_decide _ = true |- _ =>
        apply andb_true_iff in Hb as [_ Hb];
        apply bool_decide_eq_true in Hb
    end.
    split; [done|]. split; [done|]. split; [done|]. by eexists.
  - intros err Hrun. unfold OnEnd. by rewrite Hrun.
Qed.

End Selection.

(** ** Commit propagation *)

Section Propagation.
Context `{Collaborators} {E : Type} `{!Engine E} `{!Codec}.
Implicit Types (s : syncer E) (p : peer) (P : peerRoundState).
Implicit Types (ba bpm gm : bitArray).

Lemma doSync_engine s i rnd :
  syncer_engine (doSync s i rnd).1.1 = syncer_engine s.
Proof.
  destruct (doSync s i rnd) as [[s' evs] out] eqn:Hd.
  apply doSync_cases in Hd. by destruct Hd.
Qed.

Lemma count_replicate_false (n : nat) : count (replicate n false) = O.
Proof. induction n as [|n IH]; [done|]. simpl. by rewrite count_cons. Qed.

(** Once the peer has a mask of the size of a complete part set, as many
    calls as the mask has clear bits send the parts of those bits, each
    once, and fill the mask. *)
Lemma parts_phase i (n : nat) rnds :
  forall s P bpm,
    peerRoundStateAt s i = Some P ->
    prs_Sync P = true ->
    prs_Height P < Height (syncer_engine s)
    \/ (prs_Height P = Height (syncer_engine s)
        /\ stepCommit <= Step (syncer_engine s)) ->
    prs_BlockPartsMask P = Some bpm ->
    length bpm = n ->
    GetMask (GetCommitBlockParts (syncer_engine s) (prs_Height P))
    = replicate n true ->
    Z.of_nat n <= 2 ^ 16 ->
    (length rnds + count bpm)%nat = n ->
    exists idxs,
      (doSyncs s i rnds).2
      = map (partMessage (syncer_engine s) (prs_Height P)) idxs
      /\ NoDup idxs
      /\ Forall (fun idx => 0 <= idx < Z.of_nat n /\ Get idx bpm = false) idxs
      /\ length idxs = length rnds
      /\ peerRoundStateAt (doSyncs s i rnds).1 i
         = Some (set_BlockPartsMask P (Some (replicate n true))).
Proof.
  induction rnds as [|rnd rnds IH];
    intros s P bpm HP Hsync Hbehind Hmask Hlen Hfull Hfit Hcount.
  - exists []. simpl in *. repeat split; try constructor.
    rewrite HP. f_equal. rewrite <- (set_BlockPartsMask_id P) at 1.
    rewrite Hmask. do 2 f_equal. rewrite <- Hlen. apply count_full. lia.
  - simpl in Hcount.
    destruct (doSync_part_step s i rnd P bpm HP Hsync Hbehind Hmask)
      as [_ Hsend].
    destruct Hsend as (idx & s1 & (Hr & _ & Hclear) & Hd & HP1 & Hset & _).
    { destruct (count_clear bpm) as (idx0 & Hr0 & Hget0); [lia|].
      exists idx0. split; [done|]. split; [|done].
      rewrite Hfull. apply Get_replicate_true. unfold Len in Hr0. lia. }
    assert (Hidx : 0 <= idx < Z.of_nat n) by (unfold Len in Hr; lia).
    rewrite uint16_id in Hd by lia.
    assert (He : syncer_engine s1 = syncer_engine s).
    { pose proof (doSync_engine s i rnd) as He. by rewrite Hd in He. }
    destruct (IH s1 (set_BlockPartsMask P (Some (Set_ idx bpm))) (Set_ idx bpm))
      as (idxs & Hms & Hnd & Hall & Hlen' & HP');
      try done.
    { by rewrite He. }
    { pose proof (Len_Set idx idx bpm) as Hl. unfold Len in Hl. lia. }
    { by rewrite He. }
    { rewrite count_Set by done. lia. }
    exists (idx :: idxs). simpl. rewrite Hd.
    destruct (doSyncs s1 i rnds) as [s2 ms]. simpl in *.
    rewrite Hms, He. split; [done|].
    assert (Hnew : idx ∉ idxs).
    { intros Hin.
      destruct (proj1 (list.Forall_forall _ _) Hall idx Hin) as [_ Hget].
      congruence. }
    split; [by apply list.NoDup_cons|]. split; [|split; [by rewrite Hlen' | done]].
    constructor; [done|].
    eapply list.Forall_impl; [exact Hall|]. intros j [Hj Hget]. split; [done|].
    apply not_true_is_false. intros Htrue.
    apply (Get_Set_mono idx) in Htrue. congruence.
Qed.

(** Commit propagation.  A peer that asked for sync, is behind the engine or
    at its height at the commit step, and has no block-parts mask yet; the
    commit part set of its height is complete, with [n] parts.  Then [n + 1]
    calls of [doSync] for that peer, whatever the draws, give the commit
    precommits of that height followed by the [n] parts of the block, each
    exactly once and in some order, with their bytes; the peer's mask is full
    afterwards and further calls send nothing. *)
Theorem commit_propagation s i P (n : nat) rnds :
  peerRoundStateAt s i = Some P ->
  prs_Sync P = true ->
  prs_Height P < Height (syncer_engine s)
  \/ (prs_Height P = Height (syncer_engine s)
      /\ stepCommit <= Step (syncer_engine s)) ->
  prs_BlockPartsMask P = None ->
  let e := syncer_engine s in
  let h := prs_Height P in
  Parts (GetCommitBlockParts e h) = Z.of_nat n ->
  GetMask (GetCommitBlockParts e h) = replicate n true ->
  Z.of_nat n <= 2 ^ 16 ->
  length rnds = S n ->
  let s' := (doSyncs s i rnds).1 in
  exists idxs,
    (doSyncs s i rnds).2
    = VoteListMessage (GetCommitPrecommits e h) :: map (partMessage e h) idxs
    /\ idxs ≡ₚ seqZ 0 (Z.of_nat n)
    /\ peerRoundStateAt s' i
       = Some (set_BlockPartsMask P (Some (replicate n true)))
    /\ (forall rnd, doSync s' i rnd = (s', [], None)).
Proof.
  intros HP Hsync Hbehind Hmask e h Hparts Hfull Hfit Hlen s'.
  subst e h s'. destruct rnds as [|rnd rnds]; [done|].
  simpl in Hlen. injection Hlen as Hlen.
  pose proof HP as HP0.
  apply peerRoundStateAt_Some in HP as (p & l & Hp & Hl & Hh).
  assert (Htest : (prs_Height P <? Height (syncer_engine s))
                  || ((prs_Height P =? Height (syncer_engine s))
                      && (stepCommit <=? Step (syncer_engine s))) = true).
  { apply orb_true_iff. destruct Hbehind as [Hlt|[Heq Hst]].
    - left. by apply Z.ltb_lt.
    - right. apply andb_true_iff. split; [by apply Z.eqb_eq | by apply Z.leb_le]. }
  set (P1 := set_BlockPartsMask P (Some (replicate n false))).
  set (s1 := set_heap s (<[l := P1]> (syncer_heap s))).
  assert (Hd : doSync s i rnd
               = (s1, [],
                  Some (protoVoteList,
                        VoteListMessage
                          (GetCommitPrecommits (syncer_engine s) (prs_Height P))))).
  { unfold doSync. rewrite Hp, Hl, Hh, Hsync, Htest, Hmask. simpl.
    unfold newBitArray. rewrite Hparts, Nat2Z.id. done. }
  assert (HP1 : peerRoundStateAt s1 i = Some P1).
  { unfold s1. rewrite peerRoundStateAt_set_heap, Hp. simpl. rewrite Hl. simpl.
    apply list_lookup_insert_eq. by eapply lookup_lt_Some. }
  destruct (parts_phase i n rnds s1 P1 (replicate n false))
    as (idxs & Hms & Hnd & Hall & Hlen' & HP'); try done.
  { by rewrite length_replicate. }
  { rewrite count_replicate_false. lia. }
  exists idxs. simpl. rewrite Hd.
  destruct (doSyncs s1 i rnds) as [s2 ms] eqn:Hrun. simpl in *.
  split; [by rewrite Hms|]. split; [|split; [done|]].
  - apply submseteq_length_Permutation.
    + apply NoDup_submseteq; [done|]. intros idx Hin.
      destruct (proj1 (list.Forall_forall _ _) Hall idx Hin) as [Hr _].
      apply elem_of_seqZ. lia.
    + rewrite length_seqZ. lia.
  - intros rnd'.
    assert (Hs2 : syncer_engine s2 = syncer_engine s).
    { clear -Hrun. revert s1 s2 ms Hrun.
      assert (Hgen : forall rs (sa sb : syncer E) msb,
                doSyncs sa i rs = (sb, msb) ->
                syncer_engine sb = syncer_engine sa).
      { induction rs as [|r rs IHrs]; intros sa sb msb Hrs; simpl in Hrs.
        - by simplify_eq.
        - pose proof (doSync_engine sa i r) as He.
          destruct (doSync sa i r) as [[sa' evs] out].
          destruct (doSyncs sa' i rs) as [sb' msb'] eqn:Hrs'.
          simplify_eq. simpl in He. rewrite <- He. by eapply IHrs. }
      intros s1 s2 ms Hrun. by apply Hgen in Hrun. }
    destruct (doSync_part_step s2 i rnd'
                (set_BlockPartsMask P (Some (replicate n true)))
                (replicate n true)) as [Hnone _]; try done.
    { by rewrite Hs2. }
    apply Hnone. intros idx (Hr & _ & Hclear).
    rewrite Get_replicate_true in Hclear; [done|].
    unfold Len in Hr. rewrite length_replicate in Hr. lia.
Qed.

End Propagation.

(** ** Inbound messages and start-up *)

Section Receive.
Context `{Collaborators} {E : Type} `{!Engine E} `{!Codec}.
Implicit Types (s : syncer E) (p : peer) (P : peerRoundState).

Lemma map_peer_id (f : peer -> peer) (ps : list peer) :
  (forall p, peer_id (f p) = peer_id p) ->
  map peer_id (map f ps) = map peer_id ps.
Proof. intros Hf. rewrite map_map. apply map_ext. done. Qed.

Lemma map_peer_running (f : peer -> peer) (ps : list peer) :
  (forall p, peer_running (f p) = peer_running p) ->
  map peer_running (map f ps) = map peer_running ps.
Proof. intros Hf. rewrite map_map. apply map_ext. done. Qed.

Lemma deliveries_no_calls (vl : voteList) :
  unicasts (map EvReceiveVoteMessage vl) = []
  /\ broadcasts (map EvReceiveVoteMessage vl) = []
  /\ fetches (map EvReceiveVoteMessage vl) = [].
Proof. induction vl as [|v vl (IH1 & IH2 & IH3)]; [done|]. by simpl. Qed.

(** A round state that arrives from the peer [id] replaces the round state of
    every record of that identity, block-parts mask included, and wakes its
    task; the records of the other peers and their round states stay.  Nothing
    is delivered to the engine and no call is made. *)
Theorem OnReceive_round_state s sp bs id prs :
  syncer_running s = true ->
  unmarshalMessage sp bs = inl (RoundStateMessage prs) ->
  verify (RoundStateMessage prs) = None ->
  let s' := (OnReceive s sp bs id).1.1 in
  (OnReceive s sp bs id).1.2 = []
  /\ (OnReceive s sp bs id).2 = (true, None)
  /\ syncer_engine s' = syncer_engine s
  /\ forall i p, syncer_peers s !! i = Some p ->
       (peer_id p = id ->
        peerRoundStateAt s' i = Some prs
        /\ exists p', syncer_peers s' !! i = Some p'
                      /\ peer_wakeUpChan p' = true
                      /\ peer_id p' = id
                      /\ peer_running p' = peer_running p)
       /\ (peer_id p <> id ->
           syncer_peers s' !! i = Some p
           /\ forall P, peerRoundStateAt s i = Some P ->
                        peerRoundStateAt s' i = Some P).
Proof.
  intros Hrun Hmsg Hver s'. subst s'. unfold OnReceive.
  rewrite Hrun, Hmsg, Hver. simpl. split; [done|]. split; [done|].
  split; [done|]. intros i p Hp. split.
  - intros Hid. unfold peerRoundStateAt, roundStateOf. simpl.
    rewrite list_lookup_fmap, Hp. simpl.
    rewrite bool_decide_eq_true_2 by done. simpl. split.
    + rewrite lookup_app_r by lia. by rewrite Nat.sub_diag.
    + eexists. split; [done|]. done.
  - intros Hid. simpl. rewrite list_lookup_fmap, Hp. simpl.
    rewrite bool_decide_eq_false_2 by done. split; [done|].
    intros P HP. unfold peerRoundStateAt, roundStateOf in *. simpl in *.
    rewrite list_lookup_fmap, Hp. simpl.
    rewrite bool_decide_eq_false_2 by done. simpl.
    rewrite Hp in HP. simpl in HP.
    destruct (peer_peerRoundState p) as [l|]; [|done]. simpl in *.
    by apply lookup_app_l_Some.
Qed.

Ltac framed := repeat split; first [done | reflexivity].

(** Frame of [OnReceive], whatever arrives: the peers keep their identities,
    their order and their running flags, so a message never adds or removes a
    peer; the running flag, the timer, the time of the last send, the fetch
    handle and the collaborators' handles stay; round states are added to the
    heap, never taken from it; and [OnReceive] sends nothing and starts no
    fetch. *)
Theorem OnReceive_frame s sp bs id :
  let s' := (OnReceive s sp bs id).1.1 in
  let evs := (OnReceive s sp bs id).1.2 in
  peerIDs s' = peerIDs s
  /\ map peer_running (syncer_peers s') = map peer_running (syncer_peers s)
  /\ syncer_running s' = syncer_running s
  /\ syncer_timer s' = syncer_timer s
  /\ syncer_lastSendTime s' = syncer_lastSendTime s
  /\ syncer_fetchCanceler s' = syncer_fetchCanceler s
  /\ syncer_bm s' = syncer_bm s
  /\ syncer_fsm s' = syncer_fsm s
  /\ syncer_heap s `prefix_of` syncer_heap s'
  /\ unicasts evs = [] /\ broadcasts evs = [] /\ fetches evs = [].
Proof.
  intros s' evs. subst s' evs. unfold OnReceive, peerIDs.
  destruct (syncer_running s) eqn:Hrun; simpl; [|framed].
  destruct (unmarshalMessage sp bs) as [msg|err]; [|framed].
  destruct (verify msg); [framed|].
  destruct msg as [m|prs|vl].
  - destruct (ReceiveBlockPartMessage _ m true) as [e' [idx err]].
    destruct (_ && _); simpl; [framed|].
    repeat split; try (done || reflexivity).
    + apply map_peer_id. intros q. by destruct (wantsBlockPart _ _ q).
    + apply map_peer_running. intros q. by destruct (wantsBlockPart _ _ q).
  - simpl. repeat split; try (done || reflexivity).
    + apply map_peer_id. intros q. by destruct (bool_decide _).
    + apply map_peer_running. intros q. by destruct (bool_decide _).
    + by apply prefix_app_r.
  - pose proof (receiveVotes_events (syncer_engine s) vl) as Hev.
    destruct (receiveVotes _ vl) as [e' evs]. simpl in *. subst evs.
    destruct (deliveries_no_calls vl) as (Hu & Hb & Hf).
    framed.
Qed.


End Receive.

(** ** The invariant of the peer list *)

Section WellFormed.
Context `{Collaborators} {E : Type} `{!Engine E} `{!Codec}.
Implicit Types (s : syncer E) (p : peer) (P : peerRoundState).

Lemma wellFormed_alt s :
  wellFormed s
  <-> NoDup (peerIDs s)
      /\ pointersBelow (length (syncer_heap s)) (syncer_peers s).
Proof.
  unfold wellFormed, pointersBelow. rewrite Forall_lookup.
  split; intros [Hnd Hp]; (split; [done|]).
  - intros i p Hi l Hl. by eapply Hp.
  - intros i p l Hi Hl. by eapply Hp.
Qed.

Lemma pointersBelow_mono (n m : nat) (ps : list peer) :
  (n <= m)%nat -> pointersBelow n ps -> pointersBelow m ps.
Proof.
  intros Hle Hps. eapply list.Forall_impl; [exact Hps|].
  intros p Hp l Hl. specialize (Hp l Hl). lia.
Qed.

Lemma pointersBelow_map (n : nat) (f : peer -> peer) (ps : list peer) :
  (forall p l, peer_peerRoundState (f p) = Some l ->
               peer_peerRoundState p = Some l \/ (l < n)%nat) ->
  pointersBelow n ps -> pointersBelow n (map f ps).
Proof.
  intros Hf Hps. unfold pointersBelow in *. rewrite Forall_fmap.
  eapply list.Forall_impl; [exact Hps|]. intros p Hp l Hl. simpl in Hl.
  destruct (Hf p l Hl) as [Hl'|]; [by apply Hp | done].
Qed.

Lemma insert_peer_id (ps : list peer) i p q :
  ps !! i = Some p -> peer_id q = peer_id p ->
  map peer_id (<[i := q]> ps) = map peer_id ps.
Proof.
  intros Hp Hid. change (peer_id <$> <[i := q]> ps = peer_id <$> ps).
  rewrite list_fmap_insert, Hid. apply list_insert_id.
  by rewrite list_lookup_fmap, Hp.
Qed.

(** A state that differs in the record at one position, which keeps its
    identity and gets no new pointer. *)
Lemma wellFormed_slot s i p q :
  syncer_peers s !! i = Some p ->
  peer_id q = peer_id p ->
  (forall l, peer_peerRoundState q = Some l -> peer_peerRoundState p = Some l) ->
  wellFormed s ->
  wellFormed (set_peers s (<[i := q]> (syncer_peers s))).
Proof.
  intros Hp Hid Hptr [Hnd Hps]%wellFormed_alt. apply wellFormed_alt.
  unfold peerIDs. simpl. split.
  - by rewrite (insert_peer_id _ _ p).
  - apply Forall_insert; [done|]. intros l Hl.
    apply Hptr in Hl. unfold pointersBelow in Hps.
    rewrite Forall_lookup in Hps. by eapply Hps.
Qed.

(** A state that differs in other fields than the peer list and the heap. *)
Lemma wellFormed_fields s s' :
  syncer_peers s' = syncer_peers s ->
  syncer_heap s' = syncer_heap s ->
  wellFormed s -> wellFormed s'.
Proof.
  unfold wellFormed, peerIDs. intros -> ->. done.
Qed.

Lemma wellFormed_map s (f : peer -> peer) :
  (forall p, peer_id (f p) = peer_id p) ->
  (forall p, peer_peerRoundState (f p) = peer_peerRoundState p) ->
  wellFormed s ->
  wellFormed (set_peers s (map f (syncer_peers s))).
Proof.
  intros Hid Hptr [Hnd Hps]%wellFormed_alt. apply wellFormed_alt.
  unfold peerIDs. simpl. split.
  - by rewrite map_peer_id.
  - apply pointersBelow_map; [|done]. intros p l. rewrite Hptr. by left.
Qed.

Lemma sendRoundStateMessage_wellFormed s now timer :
  wellFormed s -> wellFormed (sendRoundStateMessage s now timer).1.
Proof. by apply wellFormed_fields. Qed.

Lemma doSync_wellFormed s i rnd :
  wellFormed s -> wellFormed (doSync s i rnd).1.1.
Proof.
  intros Hwf. destruct (doSync s i rnd) as [[s' evs] out] eqn:Hd.
  apply doSync_cases in Hd. simpl.
  destruct Hd as [|blk|p l P Hp Hl HP Hm|p l P bpm idx Hp Hl HP Hm ? Hidx Hpos
                  |p vl Hp]; try done.
  - apply wellFormed_alt in Hwf as [Hnd Hps]. apply wellFormed_alt.
    split; [done|]. simpl. by rewrite length_insert.
  - apply wellFormed_alt in Hwf as [Hnd Hps]. apply wellFormed_alt.
    split; [done|]. simpl. by rewrite length_insert.
  - by apply (wellFormed_slot s i p).
Qed.

Lemma syncLoop_wellFormed bps s i nextSendTime now rnd :
  wellFormed s -> wellFormed (syncLoop bps s i nextSendTime now rnd).1.1.1.
Proof.
  intros Hwf. unfold syncLoop.
  destruct (syncer_peers s !! i) as [p|] eqn:Hp; [|done].
  destruct (negb (peer_wakeUpChan p)); [done|].
  set (s0 := set_peers s (<[i := set_wakeUpChan p false]> (syncer_peers s))).
  assert (Hwf0 : wellFormed s0) by (by apply (wellFormed_slot s i p)).
  simpl. destruct (negb (peer_running p)); [done|].
  destruct (match nextSendTime with Some t => now <? t | None => false end);
    [done|].
  pose proof (doSync_wellFormed s0 i rnd Hwf0) as Hwf1.
  destruct (doSync s0 i rnd) as [[s1 evs] out]. simpl in Hwf1.
  assert (Hwake : wellFormed
            match syncer_peers s1 !! i with
            | Some p => set_peers s1 (<[i := wakeUp p]> (syncer_peers s1))
            | None => s1
            end).
  { destruct (syncer_peers s1 !! i) as [q|] eqn:Hq; [|done].
    by apply (wellFormed_slot s1 i q). }
  destruct out as [[proto msg]|]; [|done].
  destruct (bps <? 0); [done|]. by destruct (0 <? _).
Qed.

Lemma OnReceive_wellFormed s sp bs id :
  wellFormed s -> wellFormed (OnReceive s sp bs id).1.1.
Proof.
  intros Hwf. unfold OnReceive.
  destruct (negb (syncer_running s)); [done|].
  destruct (unmarshalMessage sp bs) as [msg|err]; [|done].
  destruct (verify msg); [done|].
  destruct msg as [m|prs|vl].
  - destruct (ReceiveBlockPartMessage _ m true) as [e' [idx err]].
    assert (Hwf' : wellFormed (set_engine s e')) by done.
    destruct (_ && _); [done|]. simpl.
    apply (wellFormed_map (set_engine s e')
             (fun p => if wantsBlockPart (set_engine s e') (bp_Height m) p
                       then wakeUp p else p)); [| |done].
    + intros q. by destruct (wantsBlockPart _ _ q).
    + intros q. by destruct (wantsBlockPart _ _ q).
  - simpl. apply wellFormed_alt in Hwf as [Hnd Hps]. apply wellFormed_alt.
    unfold peerIDs. simpl. split.
    + rewrite map_peer_id; [done|]. intros q. by destruct (bool_decide _).
    + rewrite length_app. simpl. apply pointersBelow_map.
      * intros q l. destruct (bool_decide _); simpl; [|by left].
        intros [= <-]. right. lia.
      * eapply pointersBelow_mono; [|done]. lia.
  - by destruct (receiveVotes _ vl) as [e' evs].
Qed.

Lemma OnJoin_wellFormed s id : wellFormed s -> wellFormed (OnJoin s id).1.
Proof.
  intros Hwf. unfold OnJoin. destruct (negb (syncer_running s)); [done|].
  destruct (existsb _ _) eqn:Hex; [done|]. simpl.
  apply wellFormed_alt in Hwf as [Hnd Hps]. apply wellFormed_alt.
  unfold peerIDs in *. simpl. split.
  - rewrite map_app. simpl. apply list.NoDup_app. split; [done|]. split.
    + intros x Hx ->%list_elem_of_singleton.
      apply existsb_peer_id in Hx. congruence.
    + apply NoDup_singleton.
  - apply Forall_app. split; [done|]. by apply Forall_singleton.
Qed.

Lemma OnLeave_wellFormed s id : wellFormed s -> wellFormed (OnLeave s id).1.
Proof.
  intros Hwf. unfold OnLeave. destruct (negb (syncer_running s)); [done|].
  destruct (findPeer id (syncer_peers s)) as [i|]; [|done].
  destruct (syncer_peers s !! i) as [p|] eqn:Hp; [|done].
  destruct (syncer_peers s !! (length (syncer_peers s) - 1)%nat) as [q|] eqn:Hq;
    [|done]. simpl.
  pose proof (swap_pop_Permutation _ _ _ _ Hp Hq) as Hperm.
  apply wellFormed_alt in Hwf as [Hnd Hps]. apply wellFormed_alt.
  unfold peerIDs, pointersBelow in *. simpl. split.
  - rewrite Hperm in Hnd. simpl in Hnd.
    exact (proj2 (proj1 (list.NoDup_cons _ _) Hnd)).
  - rewrite Hperm in Hps. exact (proj2 (proj1 (list.Forall_cons _ _ _) Hps)).
Qed.

Lemma OnEngineStepChange_wellFormed s now timer :
  wellFormed s -> wellFormed (OnEngineStepChange s now timer).1.
Proof.
  intros Hwf. unfold OnEngineStepChange.
  destruct (negb (syncer_running s)); [done|].
  match goal with
  | |- context [sendRoundStateMessage ?s1 _ _] =>
      assert (Hwf1 : wellFormed s1)
  end.
  { destruct (_ || _); [|done].
    apply (wellFormed_map s
             (fun p => if bool_decide (peer_peerRoundState p <> None)
                       then wakeUp p else p)); [| |done].
    - intros q. by destruct (bool_decide _).
    - intros q. by destruct (bool_decide _). }
  simpl. destruct (_ || _) in |- * at 1.
  - by apply sendRoundStateMessage_wellFormed.
  - done.
Qed.

Lemma Stop_wellFormed s : wellFormed s -> wellFormed (Stop s).1.
Proof.
  intros Hwf. unfold Stop.
  assert (Hwf1 : wellFormed
                   (set_peers s (map (fun p => fst (stop p)) (syncer_peers s))))
    by (by apply wellFormed_map).
  simpl. destruct (syncer_timer s); simpl; destruct (syncer_fetchCanceler s);
    simpl; (eapply wellFormed_fields; [| |exact Hwf1]; done).
Qed.

Lemma wellFormed_step s s' :
  wellFormed s -> syncerStep s s' -> wellFormed s'.
Proof.
  intros Hwf Hstep. destruct Hstep.
  - by apply doSync_wellFormed.
  - by apply syncLoop_wellFormed.
  - by apply OnReceive_wellFormed.
  - unfold OnFailure. by destruct (negb _).
  - by apply OnJoin_wellFormed.
  - by apply OnLeave_wellFormed.
  - by apply OnEngineStepChange_wellFormed.
  - unfold roundStateTimerFunc. destruct (bool_decide _); [|done].
    by apply sendRoundStateMessage_wellFormed.
  - by apply Stop_wellFormed.
  - unfold OnBlock. by destruct (negb _).
  - unfold OnEnd. by destruct (negb _).
  - done.
Qed.

Lemma wellFormed_reaches s s' :
  reaches s s' -> wellFormed s -> wellFormed s'.
Proof.
  induction 1 as [s|s s1 s' Hstep _ IH]; [done|].
  intros Hwf. apply IH. by apply (wellFormed_step s).
Qed.

Lemma wellFormed_positions s i j p q :
  wellFormed s ->
  syncer_peers s !! i = Some p -> syncer_peers s !! j = Some q ->
  peer_id p = peer_id q -> i = j.
Proof.
  intros [Hnd _] Hp Hq Hid. eapply NoDup_lookup; [exact Hnd| |].
  - unfold peerIDs. change (map peer_id ?l) with (peer_id <$> l).
    by rewrite list_lookup_fmap, Hp.
  - unfold peerIDs. change (map peer_id ?l) with (peer_id <$> l).
    rewrite list_lookup_fmap, Hq. simpl. by rewrite Hid.
Qed.

(** A peer record is unique per identity and every round-state pointer refers
    to a round state that was received, whatever the tasks, the reactor, the
    timer, fast-sync, the owner and the engine do: [OnJoin] never adds a second
    record for an identity, [OnLeave] takes exactly one away and the other
    functions leave the identities alone.  So two positions of [s.peers] never
    hold the same identity, and the round state [doSync] looks up for a record
    that has one is there. *)
Theorem wellFormed_invariant s s' :
  wellFormed s -> reaches s s' ->
  wellFormed s'
  /\ (forall i j p q, syncer_peers s' !! i = Some p ->
                      syncer_peers s' !! j = Some q ->
                      peer_id p = peer_id q -> i = j)
  /\ (forall i p, syncer_peers s' !! i = Some p ->
                  peer_peerRoundState p <> None ->
                  exists P, peerRoundStateAt s' i = Some P).
Proof.
  intros Hwf Hrun. pose proof (wellFormed_reaches s s' Hrun Hwf) as Hwf'.
  split; [done|]. split.
  - intros i j p q. by apply wellFormed_positions.
  - intros i p Hp Hptr. destruct (peer_peerRoundState p) as [l|] eqn:Hl; [|done].
    destruct Hwf' as [_ Hbelow]. specialize (Hbelow i p l Hp Hl).
    apply lookup_lt_is_Some_2 in Hbelow as [P HP]. exists P.
    apply peerRoundStateAt_Some. by exists p, l.
Qed.

(** A synchronizer made by [newSyncer] and started over distinct neighbours is
    well formed, and so is every state it reaches. *)
Theorem Start_wellFormed e bm fsm s0 evs0 ids now timer s' :
  newSyncer e bm fsm = Some (s0, evs0) ->
  NoDup ids ->
  reaches (Start s0 None ids now timer).1.1 s' ->
  wellFormed s'
  /\ forall i j p q, syncer_peers s' !! i = Some p ->
                     syncer_peers s' !! j = Some q ->
                     peer_id p = peer_id q -> i = j.
Proof.
  intros Hnew Hnd Hrun.
  assert (Hwf : wellFormed s').
  { eapply wellFormed_reaches; [exact Hrun|].
    unfold newSyncer in Hnew. destruct fsm as [fsm|]; [|done].
    injection Hnew as <- <-. apply wellFormed_alt. unfold peerIDs. simpl.
    split.
    - rewrite map_map. simpl. by rewrite map_id.
    - unfold pointersBelow. rewrite Forall_fmap. by apply Forall_true. }
  split; [done|]. intros i j p q. by apply wellFormed_positions.
Qed.

End WellFormed.

(** * The model on concrete inputs *)

Section Examples.
#[local] Existing Instance Fixture.types.
#[local] Existing Instance Fixture.engineI.
#[local] Existing Instance Fixture.codec.
Import Fixture.

(** Decides a closed equation or comparison by evaluation. *)
Ltac evaluated := vm_compute; first [reflexivity | intro; discriminate | lia].


(** C10 on the same call. *)
Lemma doSync_frame_witness :
  syncer_running (doSync commitPeer 0 0).1.1 = true
  /\ syncer_timer (doSync commitPeer 0 0).1.1 = None
  /\ length (syncer_peers (doSync commitPeer 0 0).1.1) = 1%nat.
Proof.
  assert (Hd : doSync commitPeer 0 0
               = ((doSync commitPeer 0 0).1.1, (doSync commitPeer 0 0).1.2,
                  (doSync commitPeer 0 0).2)) by (vm_compute; reflexivity).
  destruct (doSync_frame commitPeer 0 0 _ _ _ Hd)
    as (Hr & Ht & _ & _ & _ & _ & Hl & _).
  split; [exact Hr | split; [exact Ht | exact Hl]].
Defined.

(** The part sets of the table-driven engine fit the 16-bit part index. *)
Lemma Fixture_parts_fit (e : engine) (h : Z) :
  Len (GetMask (GetCommitBlockParts e h)) <= 2 ^ 16.
Proof.
  simpl. unfold Len. rewrite length_replicate, length_take.
  assert (Z.of_nat maxParts = 2 ^ 16) by (unfold maxParts; lia). lia.
Qed.



(** C3 on the catch-up scenario: the engine is at height 100 and the peer
    advertises 110. *)
Lemma doSync_far_ahead_witness :
  doSync (aheadPeer true) 0 0
  = (set_fetchCanceler (aheadPeer true) (Some 1),
     [EvGetBlockByHeight 99; EvFetchBlocks 100 (-1) 99], None).
Proof.
  destruct (doSync_far_ahead (aheadPeer true) 0 0 (roundState 110 0 true None))
    as (_ & _ & Hfetch).
  - reflexivity.
  - split; evaluated.
  - split; evaluated.
  - evaluated.
  - apply Hfetch; evaluated.
Defined.

(** C3 as stated, without the sync flag, fails: the peer is ten heights
    ahead, no fetch is outstanding and the block manager has block 99, but
    the round state has sync clear and [doSync] makes no call. *)
Lemma doSync_far_ahead_counterexample :
  doSync (aheadPeer false) 0 0 = (aheadPeer false, [], None)
  /\ ~ (forall (s : syncer engine) i rnd P blk,
          peerRoundStateAt s i = Some P ->
          Height (syncer_engine s) + configFastSyncThreshold < prs_Height P ->
          syncer_fetchCanceler s = None ->
          GetBlockByHeight (syncer_bm s) (Height (syncer_engine s) - 1)
          = inl blk ->
          (doSync s i rnd).1.2
          = [EvGetBlockByHeight (Height (syncer_engine s) - 1);
             EvFetchBlocks (Height (syncer_engine s)) (-1) blk]).
Proof.
  split; [reflexivity|].
  intros Hclaim.
  specialize (Hclaim (aheadPeer false) 0%nat 0%nat (roundState 110 0 false None) 99).
  assert (Hevs : (doSync (aheadPeer false) 0 0).1.2 = []) by reflexivity.
  rewrite Hevs in Hclaim. discriminate Hclaim; evaluated.
Qed.

(** C4 with the engine in round 1 and the peer in round 0, at the steps
    precommit-wait and prevote. *)
Lemma doSync_earlier_round_witness :
  (exists s', doSync (earlierRoundPeer stepPrecommitWait true) 0 0
              = (s', [], Some (3, VoteListMessage [2001]))
              /\ peerRoundStateAt s' 0 = None)
  /\ (exists s', doSync (earlierRoundPeer 2 true) 0 0
                 = (s', [], Some (3, VoteListMessage [2000]))
                 /\ peerRoundStateAt s' 0 = None).
Proof.
  split.
  - destruct (doSync_earlier_round (earlierRoundPeer stepPrecommitWait true)
                0 0 (roundState 10 0 true None))
      as (s' & Hlate & _ & Hnil & _);
      try (split; evaluated); try evaluated.
    exists s'. split; [|exact Hnil].
    apply Hlate. evaluated.
  - destruct (doSync_earlier_round (earlierRoundPeer 2 true)
                0 0 (roundState 10 0 true None))
      as (s' & _ & Hearly & Hnil & _);
      try (split; evaluated); try evaluated.
    exists s'. split; [|exact Hnil].
    apply Hearly. evaluated.
Defined.

(** C4 as stated fails in two ways.  With the engine at the commit step,
    which is not before precommit-wait, the peer gets the commit precommits
    of its height and not the precommits of the engine's round.  And with
    sync clear the peer gets nothing. *)
Lemma doSync_earlier_round_counterexample :
  (doSync (earlierRoundPeer stepCommit true) 0 0).2
  = Some (3, VoteListMessage [1010])
  /\ GetPrecommits (syncer_engine (earlierRoundPeer stepCommit true)) 1 = [2001]
  /\ peerRoundStateAt (doSync (earlierRoundPeer stepCommit true) 0 0).1.1 0
     = Some (roundState 10 0 true (Some [false; false; false]))
  /\ (doSync (earlierRoundPeer stepPrecommitWait false) 0 0).2 = None
  /\ ~ (forall (s : syncer engine) i rnd P,
          peerRoundStateAt s i = Some P ->
          prs_Sync P = true ->
          prs_Height P = Height (syncer_engine s) ->
          prs_Round P < Round (syncer_engine s) ->
          stepPrecommitWait <= Step (syncer_engine s) ->
          (doSync s i rnd).2
          = Some (protoVoteList,
                  VoteListMessage
                    (GetPrecommits (syncer_engine s) (Round (syncer_engine s)))))
  /\ ~ (forall (s : syncer engine) i rnd P,
          peerRoundStateAt s i = Some P ->
          prs_Height P = Height (syncer_engine s) ->
          Step (syncer_engine s) < stepCommit ->
          prs_Round P < Round (syncer_engine s) ->
          stepPrecommitWait <= Step (syncer_engine s) ->
          (doSync s i rnd).2
          = Some (protoVoteList,
                  VoteListMessage
                    (GetPrecommits (syncer_engine s) (Round (syncer_engine s))))).
Proof.
  do 4 (split; [reflexivity|]).
  split; intros Hclaim.
  - specialize (Hclaim (earlierRoundPeer stepCommit true) 0%nat 0%nat
                  (roundState 10 0 true None)).
    assert (Hout : (doSync (earlierRoundPeer stepCommit true) 0 0).2
                   = Some (3, VoteListMessage [1010])) by reflexivity.
    rewrite Hout in Hclaim. discriminate Hclaim; evaluated.
  - specialize (Hclaim (earlierRoundPeer stepPrecommitWait false) 0%nat 0%nat
                  (roundState 10 0 false None)).
    assert (Hout : (doSync (earlierRoundPeer stepPrecommitWait false) 0 0).2
                   = None) by reflexivity.
    rewrite Hout in Hclaim. discriminate Hclaim; evaluated.
Qed.

(** C5 on the vote-fill scenario: the engine has four prevotes and two
    precommits, the peer has the prevote of validator 0. *)
Lemma doSync_same_round_witness :
  exists s',
    doSync (sameRoundPeer 2 true) 0 0
    = (s', [], Some (3, VoteListMessage [11; 12; 13; 20; 21]))
    /\ peerRoundStateAt s' 0 = None.
Proof.
  destruct (doSync_same_round (sameRoundPeer 2 true) 0 0 (sameRoundState true))
    as (Hsome & _); try evaluated.
  apply Hsome. evaluated.
Defined.

(** C5 as stated fails in two ways.  With the engine at the commit step the
    peer at the engine's height and round gets the commit precommits, the
    engine is not asked for the missing votes and the round state stays.  And
    with sync clear the peer gets nothing although votes are missing. *)
Lemma doSync_same_round_counterexample :
  (doSync (sameRoundPeer stepCommit true) 0 0).2
  = Some (3, VoteListMessage [1005])
  /\ peerRoundStateAt (doSync (sameRoundPeer stepCommit true) 0 0).1.1 0
     = Some (set_BlockPartsMask (sameRoundState true)
               (Some [false; false; false]))
  /\ (doSync (sameRoundPeer 2 false) 0 0).2 = None
  /\ ~ (forall (s : syncer engine) i rnd P,
          peerRoundStateAt s i = Some P ->
          prs_Sync P = true ->
          prs_Height P = Height (syncer_engine s) ->
          prs_Round P = Round (syncer_engine s) ->
          let vl := GetVotes (syncer_engine s) (Round (syncer_engine s))
                      (Flip (Copy (prs_PrevotesMask P)))
                      (Flip (Copy (prs_PrecommitsMask P))) in
          vl <> [] ->
          (doSync s i rnd).2 = Some (protoVoteList, VoteListMessage vl)
          /\ peerRoundStateAt (doSync s i rnd).1.1 i = None)
  /\ ~ (forall (s : syncer engine) i rnd P,
          peerRoundStateAt s i = Some P ->
          prs_Height P = Height (syncer_engine s) ->
          Step (syncer_engine s) < stepCommit ->
          prs_Round P = Round (syncer_engine s) ->
          let vl := GetVotes (syncer_engine s) (Round (syncer_engine s))
                      (Flip (Copy (prs_PrevotesMask P)))
                      (Flip (Copy (prs_PrecommitsMask P))) in
          vl <> [] ->
          (doSync s i rnd).2 = Some (protoVoteList, VoteListMessage vl)
          /\ peerRoundStateAt (doSync s i rnd).1.1 i = None).
Proof.
  do 3 (split; [reflexivity|]).
  split; intros Hclaim.
  - destruct (Hclaim (sameRoundPeer stepCommit true) 0%nat 0%nat
                (sameRoundState true)) as [Hout _]; try evaluated.
    + assert (Hc : (doSync (sameRoundPeer stepCommit true) 0 0).2
                   = Some (3, VoteListMessage [1005])) by reflexivity.
      rewrite Hc in Hout. discriminate Hout.
  - destruct (Hclaim (sameRoundPeer 2 false) 0%nat 0%nat
                (sameRoundState false)) as [Hout _]; try evaluated.
    + assert (Hc : (doSync (sameRoundPeer 2 false) 0 0).2 = None)
        by reflexivity.
      rewrite Hc in Hout. discriminate Hout.
Qed.

(** C6 at the commit step with two peers, one without round state. *)
Lemma OnEngineStepChange_running_witness :
  syncer_peers (OnEngineStepChange twoPeers 1000 1%nat).1
  = [peerAt 7%nat None; wakeUp (peerAt 8%nat (Some 0%nat))]
  /\ (OnEngineStepChange twoPeers 1000 1%nat).2
     = [EvBroadcastNeighbor 2 [Byte.x00]; EvAfterFunc 300000000 1%nat].
Proof.
  destruct (OnEngineStepChange_running twoPeers 1000 1%nat eq_refl)
    as (Hwake & _ & Hsend & _).
  split.
  - apply Hwake. right. evaluated.
  - apply Hsend. right. evaluated.
Defined.

(** C6 as stated fails in two ways.  At the commit step a peer that has not
    sent a round state is not woken.  And at the propose step nothing is
    broadcast when there is no peer. *)
Lemma OnEngineStepChange_counterexample :
  syncer_peers (OnEngineStepChange twoPeers 1000 1%nat).1
  = [peerAt 7%nat None; wakeUp (peerAt 8%nat (Some 0%nat))]
  /\ (OnEngineStepChange noPeers 1000 1%nat).2
     = [EvAfterFunc configRoundStateMessageInterval 1%nat]
  /\ ~ (forall (s : syncer engine) now timer p,
          syncer_running s = true ->
          Step (syncer_engine s) = stepCommit ->
          p ∈ syncer_peers (OnEngineStepChange s now timer).1 ->
          peer_wakeUpChan p = true)
  /\ ~ (forall (s : syncer engine) now timer,
          syncer_running s = true ->
          Step (syncer_engine s) = stepPropose ->
          exists bs,
            EvBroadcastNeighbor protoRoundState bs
            ∈ (OnEngineStepChange s now timer).2).
Proof.
  do 2 (split; [reflexivity|]).
  split; intros Hclaim.
  - specialize (Hclaim twoPeers 1000 1%nat (peerAt 7%nat None) eq_refl eq_refl).
    discriminate Hclaim. vm_compute. apply list_elem_of_here.
  - destruct (Hclaim noPeers 1000 1%nat eq_refl eq_refl) as [bs Hin].
    vm_compute in Hin. apply list_elem_of_singleton in Hin. discriminate Hin.
Qed.

(** C7 on four messages: one that does not decode, a block part that fails
    verification, a block part the engine refuses, and a vote list. *)
Lemma OnReceive_errors_witness :
  OnReceive commitPeer 3 [Byte.x00] 7%nat = (commitPeer, [], (false, Some 7))
  /\ OnReceive commitPeer 1 [Byte.x04] 7%nat = (commitPeer, [], (false, Some 3))
  /\ (OnReceive commitPeer 1 [Byte.x03] 7%nat).2 = (false, Some 1)
  /\ (OnReceive commitPeer 3 [Byte.x01] 7%nat).1.2
     = [EvReceiveVoteMessage 1; EvReceiveVoteMessage 2; EvReceiveVoteMessage 3]
  /\ (OnReceive commitPeer 3 [Byte.x01] 7%nat).2 = (true, None).
Proof.
  split; [|split; [|split; [|split]]].
  - destruct (OnReceive_errors commitPeer 3 [Byte.x00] 7%nat eq_refl)
      as (Hdecode & _).
    apply Hdecode. reflexivity.
  - destruct (OnReceive_errors commitPeer 1 [Byte.x04] 7%nat eq_refl)
      as (_ & Hverify & _).
    apply (Hverify (cannedBlockPart 10 500)); reflexivity.
  - destruct (OnReceive_errors commitPeer 1 [Byte.x03] 7%nat eq_refl)
      as (_ & _ & Hpart & _).
    rewrite (Hpart {| bp_Height := 10; bp_Index := 7;
                      bp_BlockPart := [Byte.xaa; Byte.xbb] |}
               (received (syncer_engine commitPeer)) (-1) 1);
      reflexivity.
  - destruct (OnReceive_errors commitPeer 3 [Byte.x01] 7%nat eq_refl)
      as (_ & _ & _ & Hvotes).
    rewrite (Hvotes [1; 2; 3]); reflexivity.
  - destruct (OnReceive_errors commitPeer 3 [Byte.x01] 7%nat eq_refl)
      as (_ & _ & _ & Hvotes).
    rewrite (Hvotes [1; 2; 3]); reflexivity.
Defined.

(** C7 as stated fails for votes: the engine refuses the second vote of the
    list, and [OnReceive] still delivers the third and reports no error. *)
Lemma OnReceive_rejected_vote_counterexample :
  unmarshalMessage 3 [Byte.x01] = inl (VoteListMessage [1; 2; 3])
  /\ (ReceiveVoteMessage (received (syncer_engine commitPeer)) 2 true).2
     = (-1, Some 2)
  /\ (OnReceive commitPeer 3 [Byte.x01] 7%nat).1.2
     = [EvReceiveVoteMessage 1; EvReceiveVoteMessage 2; EvReceiveVoteMessage 3]
  /\ (OnReceive commitPeer 3 [Byte.x01] 7%nat).2 = (true, None)
  /\ ~ (forall (s : syncer engine) sp bs id vl pre v post e' idx err,
          syncer_running s = true ->
          unmarshalMessage sp bs = inl (VoteListMessage vl) ->
          verify (VoteListMessage vl) = None ->
          vl = pre ++ v :: post ->
          ReceiveVoteMessage (receiveVotes (syncer_engine s) pre).1 v true
          = (e', (idx, Some err)) ->
          (OnReceive s sp bs id).2 = (false, Some err)
          /\ (OnReceive s sp bs id).1.2
             = map EvReceiveVoteMessage (pre ++ [v])).
Proof.
  do 4 (split; [reflexivity|]).
  intros Hclaim.
  destruct (Hclaim commitPeer 3 [Byte.x01] 7%nat [1; 2; 3] [1] 2 [3]
              (received (received (syncer_engine commitPeer))) (-1) 2)
    as [Hret _]; try reflexivity.
  vm_compute in Hret. discriminate Hret.
Qed.



(** C9 after [Stop] in the commit scenario. *)
Lemma callbacks_after_Stop_witness :
  OnReceive (Stop commitPeer).1 3 [Byte.x01] 7%nat
  = ((Stop commitPeer).1, [], (false, None))
  /\ OnBlock (Stop commitPeer).1 11 = ((Stop commitPeer).1, [])
  /\ OnJoin (Stop commitPeer).1 9%nat = ((Stop commitPeer).1, [])
  /\ OnLeave (Stop commitPeer).1 7%nat = ((Stop commitPeer).1, []).
Proof.
  destruct (callbacks_after_Stop (Stop commitPeer).1 eq_refl)
    as (Hreceive & _ & Hjoin & Hleave & Hblock & _).
  split; [apply Hreceive | split; [apply Hblock | split; [apply Hjoin | apply Hleave]]].
Defined.

End Examples.

(** * The further properties on concrete inputs *)

Section MoreExamples.
#[local] Existing Instance Fixture.types.
#[local] Existing Instance Fixture.engineI.
#[local] Existing Instance Fixture.codec.
Import Fixture.

(** Decides a closed equation or comparison by evaluation. *)
Ltac computed := vm_compute; first [reflexivity | intro; discriminate | lia].

Lemma twoPeers_fresh : 9%nat ∉ peerIDs twoPeers.
Proof.
  unfold peerIDs. simpl. rewrite !not_elem_of_cons.
  repeat split; [lia | lia | apply not_elem_of_nil].
Defined.

Lemma twoPeers_NoDup : NoDup (peerIDs twoPeers).
Proof.
  unfold peerIDs. simpl. rewrite !list.NoDup_cons, !not_elem_of_cons.
  repeat split; [lia | apply not_elem_of_nil | apply not_elem_of_nil
                 | apply NoDup_nil_2].
Defined.

Lemma twoPeers_wellFormed : wellFormed twoPeers.
Proof.
  split; [exact twoPeers_NoDup|].
  intros [|[|i]] p l Hp Hl; simpl in *; simplify_eq; simpl in *;
    simplify_eq; simpl; lia.
Defined.

(** A peer joins [twoPeers] twice. *)
Lemma OnJoin_idempotent_witness :
  OnJoin (OnJoin twoPeers 9%nat).1 9%nat = ((OnJoin twoPeers 9%nat).1, [])
  /\ 9%nat ∈ peerIDs (OnJoin twoPeers 9%nat).1
  /\ NoDup (peerIDs (OnJoin twoPeers 9%nat).1).
Proof.
  destruct (OnJoin_idempotent twoPeers 9%nat eq_refl) as (H1 & H2 & H3).
  split; [exact H1|]. split; [exact H2|]. exact (H3 twoPeers_NoDup).
Defined.

(** The peer 9 joins [twoPeers]. *)
Lemma OnJoin_new_witness :
  syncer_peers (OnJoin twoPeers 9%nat).1
  = [peerAt 7%nat None; peerAt 8%nat (Some 0%nat); newPeer 9%nat]
  /\ (OnJoin twoPeers 9%nat).2 = [EvGoSync 9%nat; EvUnicast 2 [Byte.x00] 9%nat]
  /\ forall rnd, doSync (OnJoin twoPeers 9%nat).1 2 rnd
                 = ((OnJoin twoPeers 9%nat).1, [], None).
Proof.
  destruct (OnJoin_new twoPeers 9%nat eq_refl twoPeers_fresh)
    as (H1 & H2 & H3).
  split; [exact H1|]. split; [exact H2|]. exact H3.
Defined.

(** The first of the two peers leaves. *)
Lemma OnLeave_removes_witness :
  (OnLeave twoPeers 7%nat).2 = [EvAwaitStopped 7%nat]
  /\ NoDup (peerIDs (OnLeave twoPeers 7%nat).1)
  /\ (7%nat ∉ peerIDs (OnLeave twoPeers 7%nat).1)
  /\ OnLeave twoPeers 9%nat = (twoPeers, []).
Proof.
  destruct (OnLeave_removes twoPeers 7%nat eq_refl) as [_ Hin].
  destruct Hin as (_ & Hev & _ & Hnd).
  { unfold peerIDs. simpl. apply list_elem_of_here. }
  destruct (Hnd twoPeers_NoDup) as [Hnd' Hgone].
  split; [exact Hev|]. split; [exact Hnd'|]. split; [exact Hgone|].
  destruct (OnLeave_removes twoPeers 9%nat eq_refl) as [Hout _].
  exact (Hout twoPeers_fresh).
Defined.

(** The peer 9 joins [twoPeers] and leaves again. *)
Lemma OnJoin_OnLeave_witness :
  (OnLeave (OnJoin twoPeers 9%nat).1 9%nat).1 = twoPeers.
Proof. exact (OnJoin_OnLeave twoPeers 9%nat eq_refl twoPeers_fresh). Defined.

(** The task of the second peer after [Stop]. *)
Lemma Stop_ends_tasks_witness :
  (syncLoop (-1) (Stop twoPeers).1 1 None 0 0).1.1.2 = [EvSignalStopped 8%nat]
  /\ (syncLoop (-1) (Stop twoPeers).1 1 None 0 0).2 = LoopBreak.
Proof.
  rewrite (Stop_ends_tasks twoPeers 1 (peerAt 8%nat (Some 0%nat)) (-1) None 0
             0%nat eq_refl).
  split; reflexivity.
Defined.

(** The timer 1 is replaced by the timer 2. *)
Lemma timer_replacement_witness :
  let s2 := (sendRoundStateMessage
               (sendRoundStateMessage noPeers 0 1%nat).1 5 2%nat).1 in
  roundStateTimerFunc s2 1%nat 9 3%nat = (s2, [])
  /\ syncer_timer (roundStateTimerFunc s2 2%nat 9 3%nat).1 = Some 3%nat.
Proof.
  assert (Hne : 1%nat <> 2%nat) by lia.
  destruct (timer_replacement noPeers 0 1%nat 5 2%nat Hne)
    as (_ & Hstale & Hlive).
  destruct (Hlive 9 3%nat) as (_ & Htimer & _).
  split; [exact (Hstale 9 3%nat) | exact Htimer].
Defined.


(** The first iteration of the task of [wokenPeer]. *)
Lemma syncLoop_unicasts_witness :
  broadcasts (syncLoop (-1) wokenPeer 0 None 0 0).1.1.2 = []
  /\ unicasts (syncLoop (-1) wokenPeer 0 None 0 0).1.1.2
     = [(3, [Byte.x01], 7%nat)].
Proof.
  destruct (syncLoop_unicasts (-1) wokenPeer 0
              (wakeUp (peerAt 7%nat (Some 0%nat))) None 0 0%nat eq_refl)
    as (Hb & _ & _).
  split; [exact Hb | vm_compute; reflexivity].
Defined.

(** The commit precommits [doSync] sends to the peer of [commitPeer]. *)
Lemma doSync_message_shape_witness :
  exists P,
    peerRoundStateAt commitPeer 0 = Some P
    /\ prs_Sync P = true
    /\ prs_Height P <= 10
    /\ (doSync commitPeer 0 0).1.2 = [].
Proof.
  assert (Hout : (doSync commitPeer 0 0).2
                 = Some (3, VoteListMessage [1010])) by (vm_compute; reflexivity).
  destruct (doSync_message_shape commitPeer 0 0%nat _ _ Hout)
    as (P & HP & Hsync & Hh & Hev & _).
  exists P. split; [exact HP|]. split; [exact Hsync|]. split; [exact Hh|].
  exact Hev.
Defined.


(** Four calls of [doSync] for the peer of [commitPeer], whose block has
    three parts. *)
Lemma commit_propagation_witness :
  exists idxs,
    (doSyncs commitPeer 0 [0; 1; 0; 5]%nat).2
    = VoteListMessage [1010]
      :: map (partMessage (engineAt 10 0 stepCommit) 10) idxs
    /\ idxs ≡ₚ [0; 1; 2]
    /\ forall rnd,
         doSync (doSyncs commitPeer 0 [0; 1; 0; 5]%nat).1 0 rnd
         = ((doSyncs commitPeer 0 [0; 1; 0; 5]%nat).1, [], None).
Proof.
  destruct (commit_propagation commitPeer 0 (roundState 10 0 true None) 3
              [0; 1; 0; 5]%nat) as (idxs & Hms & Hperm & _ & Hquiet).
  - reflexivity.
  - reflexivity.
  - right. split; computed.
  - reflexivity.
  - vm_compute; reflexivity.
  - vm_compute; reflexivity.
  - computed.
  - reflexivity.
  - exists idxs. split; [exact Hms|]. split; [exact Hperm | exact Hquiet].
Defined.

(** A join and a leave after [twoPeers]. *)
Lemma wellFormed_invariant_witness :
  wellFormed (OnLeave (OnJoin twoPeers 9%nat).1 7%nat).1.
Proof.
  apply (wellFormed_invariant twoPeers); [exact twoPeers_wellFormed|].
  eapply reaches_step; [apply (step_OnJoin twoPeers 9%nat)|].
  eapply reaches_step; [apply (step_OnLeave _ 7%nat)|].
  apply reaches_here.
Defined.

(** A synchronizer started over the neighbours 7 and 8, joined by 9. *)
Lemma Start_wellFormed_witness :
  wellFormed (OnJoin (Start freshSyncer None [7; 8]%nat 0 1%nat).1.1 9%nat).1.
Proof.
  apply (Start_wellFormed (engineAt 10 0 stepPropose) blocks (inl fetcher)
           freshSyncer [EvStartServer] [7; 8]%nat 0 1%nat).
  - reflexivity.
  - rewrite !list.NoDup_cons, !not_elem_of_cons.
    repeat split; [lia | apply not_elem_of_nil | apply not_elem_of_nil
                   | apply NoDup_nil_2].
  - eapply reaches_step; [apply (step_OnJoin _ 9%nat)|]. apply reaches_here.
Defined.

End MoreExamples.

Section ReceiveExamples.
#[local] Existing Instance Fixture.types.
#[local] Existing Instance Fixture.engineI.
#[local] Existing Instance Fixture.codecWithRoundState.
Import Fixture.

(** The first of the two peers sends its round state. *)
Lemma OnReceive_round_state_witness :
  (OnReceive twoPeers 2 [Byte.x05] 7%nat).2 = (true, None)
  /\ peerRoundStateAt (OnReceive twoPeers 2 [Byte.x05] 7%nat).1.1 0
     = Some (roundState 10 0 true None)
  /\ syncer_peers (OnReceive twoPeers 2 [Byte.x05] 7%nat).1.1 !! 1%nat
     = Some (peerAt 8%nat (Some 0%nat)).
Proof.
  assert (Hmsg : unmarshalMessage 2 [Byte.x05]
                 = inl (RoundStateMessage (roundState 10 0 true None)))
    by reflexivity.
  assert (Hver : verify (RoundStateMessage (roundState 10 0 true None)) = None)
    by reflexivity.
  destruct (OnReceive_round_state twoPeers 2 [Byte.x05] 7%nat
              (roundState 10 0 true None) eq_refl Hmsg Hver)
    as (_ & Hres & _ & Hpeers).
  split; [exact Hres|]. split.
  - destruct (Hpeers 0%nat (peerAt 7%nat None) eq_refl) as [Hsame _].
    destruct (Hsame eq_refl) as [Hat _]. exact Hat.
  - destruct (Hpeers 1%nat (peerAt 8%nat (Some 0%nat)) eq_refl) as [_ Hother].
    assert (Hne : peer_id (peerAt 8%nat (Some 0%nat)) <> 7%nat)
      by (simpl; lia).
    destruct (Hother Hne) as [Hkept _]. exact Hkept.
Defined.

End ReceiveExamples.
